(** * speed-comparison: the multi-transport timing harness and its statistics

    A shallow embedding of [speed-comparison/speed-comparison.js].

    Conventions of the embedding.
    - Durations are differences of two [(new Date()).valueOf()] readings,
      hence integers: they are values of [Z].  Sums of durations are exact.
    - Quotients are taken in [Q] and square roots in [R]: the arithmetic of
      the statistics is the exact one, the rounding of IEEE doubles is not
      part of the model.  The non-finite doubles ([NaN], the infinities)
      that a division by a zero length produces are kept, see [number].
    - [undefined] read from an array out of its bounds is [None].
    - An exception is the [Throw] of the [result] monad.
    - Arrays that the source mutates or aliases live in a [heap] and are
      passed by reference ([ref]); pure helpers take the array contents.
    - The process is a state that [main], [runAsClient] and the callbacks of
      the replies pass along; what it reads from outside (the clock, the
      payload file, the replies and the order they arrive in) is a [World].
      A promise is its state, settled once; a [Promise.all] reacts when one
      of its promises settles. *)

From Stdlib Require Import ZArith QArith Qround Qpower Reals Qreals Lra Lia.
From Stdlib Require Import List Permutation Sorted String DecimalString.
From stdpp Require Import base list sorting.
Import ListNotations.

Open Scope Z_scope.

(** ** Values *)

Module Js.

(** A JavaScript number over the field [F] of its finite values. *)
Inductive number (F : Type) : Type :=
| Num (x : F)
| PosInf
| NegInf
| NaN.
Arguments Num {F} x.
Arguments PosInf {F}.
Arguments NegInf {F}.
Arguments NaN {F}.

Inductive exn : Type :=
| TypeError (msg : string).

Inductive result (A : Type) : Type :=
| Ok (a : A)
| Throw (e : exn).
Arguments Ok {A} a.
Arguments Throw {A} e.

Definition bind {A B} (m : result A) (k : A -> result B) : result B :=
  match m with
  | Ok a => k a
  | Throw e => Throw e
  end.

(** [a - b] *)
Definition sub (a b : number Q) : number Q :=
  match a, b with
  | NaN, _ | _, NaN => NaN
  | Num x, Num y => Num (x - y)%Q
  | PosInf, PosInf | NegInf, NegInf => NaN
  | PosInf, _ | _, NegInf => PosInf
  | NegInf, _ | _, PosInf => NegInf
  end.

(** [a + b] *)
Definition add (a b : number Q) : number Q :=
  match a, b with
  | NaN, _ | _, NaN => NaN
  | Num x, Num y => Num (x + y)%Q
  | PosInf, NegInf | NegInf, PosInf => NaN
  | PosInf, _ | _, PosInf => PosInf
  | NegInf, _ | _, NegInf => NegInf
  end.

(** [a / b] for finite [a] and a finite [b] that is not the negative
    zero (every divisor of the program is an array length or [2]). *)
Definition quot (a b : Q) : number Q :=
  if Qeq_bool b 0 then
    if Qeq_bool a 0 then NaN
    else if Qle_bool 0 a then PosInf else NegInf
  else Num (a / b)%Q.

(** [a / n] where [n] is an array length. *)
Definition div (a : number Q) (n : nat) : number Q :=
  match a with
  | Num x => quot x (inject_Z (Z.of_nat n))
  | other => other
  end.

(** [Math.pow(a, e)] for a positive integer exponent [e]. *)
Definition Math_pow (a : number Q) (e : positive) : number Q :=
  match a with
  | Num x => Num (Qpower_positive x e)
  | PosInf => PosInf
  | NegInf => match e with xO _ => PosInf | _ => NegInf end
  | NaN => NaN
  end.

(** [Math.sqrt(a)] *)
Definition Math_sqrt (a : number Q) : number R :=
  match a with
  | Num x => if Qle_bool 0 x then Num (sqrt (Q2R x)) else NaN
  | PosInf => PosInf
  | NegInf => NaN
  | NaN => NaN
  end.

(** [Math.floor(a)] for finite [a]. *)
Definition Math_floor (a : Q) : Z := Qfloor a.

(** [nums[i]]: [undefined] out of the bounds. *)
Definition get {A} (nums : list A) (i : Z) : option A :=
  if i <? 0 then None else nums !! Z.to_nat i.

(** [nums.reduce(f)], without initial value: throws on the empty array. *)
Definition reduce1 {A} (f : A -> A -> A) (nums : list A) : result A :=
  match nums with
  | [] => Throw (TypeError "Reduce of empty array with no initial value")
  | x :: rest => Ok (fold_left f rest x)
  end.

(** [nums.reduce(f, init)] *)
Definition reduce {A B} (f : B -> A -> B) (init : B) (nums : list A) : B :=
  fold_left f nums init.

(** [nums.slice(start, stop)]; [stop = None] is the omitted argument. *)
Definition slice {A} (nums : list A) (start : Z) (stop : option Z) : list A :=
  let len := Z.of_nat (length nums) in
  let clamp i := if i <? 0 then Z.max (len + i) 0 else Z.min i len in
  let k := clamp start in
  let final := match stop with None => len | Some e => clamp e end in
  firstn (Z.to_nat (final - k)) (skipn (Z.to_nat k) nums).

(** [nums.sort(cmp)] on the contents of the array.  The comparator
    answers a number or [undefined] ([None]), which the sort reads as
    [+0].  The order of the result is the stable one: [x] is moved
    behind [y] only when [cmp x y > 0]. *)
Definition order (v : option Z) : Z :=
  match v with Some z => z | None => 0 end.

Fixpoint insert {A} (cmp : A -> A -> option Z) (x : A) (sorted : list A) : list A :=
  match sorted with
  | [] => [x]
  | y :: rest =>
      if order (cmp x y) >? 0 then y :: insert cmp x rest
      else x :: y :: rest
  end.

Definition sort {A} (cmp : A -> A -> option Z) (nums : list A) : list A :=
  fold_right (insert cmp) [] nums.

End Js.

Import Js.

Notation "'let*' x ':=' m 'in' k" := (bind m (fun x => k))
  (at level 10, x name, m at level 100, k at level 200).

(** ** The statistics engine *)

Definition _calculateMean (nums : list Z) : result (number Q) :=
  let* sum := reduce1 Z.add nums in
  Ok (quot (inject_Z sum) (inject_Z (Z.of_nat (length nums)))).

Definition _calculateMedian (nums : list Z) : option Z :=
  let idx := Math_floor (inject_Z (Z.of_nat (length nums)) / 2)%Q in
  get nums idx.

Definition _calculateHigh (nums : list Z) : option Z :=
  get nums (Z.of_nat (length nums) - 1).

Definition _calculateLow (nums : list Z) : option Z :=
  get nums 0.

Definition _calculateVariance (mean : number Q) (nums : list Z) : number Q :=
  let variance :=
    reduce (fun variance num =>
              add (Math_pow (sub (Num (inject_Z num)) mean) 2) variance)
           (Num 0%Q) nums in
  div variance (length nums).

Definition _calculateStdDev (nums : list Z) : result (number R) :=
  let* mean := _calculateMean nums in
  let variance := _calculateVariance mean nums in
  Ok (Math_sqrt variance).

Definition _getHighFive (nums : list Z) : list Z := slice nums (-5) None.

Definition _getLowFive (nums : list Z) : list Z := slice nums 0 (Some 5).

(** The comparator handed to [sort]; the last [else if] has no [else]. *)
Definition compareFn (a b : Z) : option Z :=
  if a <? b then Some (-1)
  else if a >? b then Some 1
  else if a =? b then Some 0
  else None.

(** [_sort] on the contents of the array; [_sort] itself is below, on the heap. *)
Definition sorted_contents (nums : list Z) : list Z := sort compareFn nums.

(** ** Arrays on the heap

    An array object is a cell of the heap; a [ref] is its address.  Only
    the arrays of numbers of [_formatTimings] need one, and every [ref] of
    the program is the address of an array that was allocated: what [deref]
    and [_sort] give at any other address stands for nothing in the
    program. *)

Definition ref : Type := nat.

Abbreviation heap := (list (list Z)).

Definition alloc (contents : list Z) (h : heap) : ref * heap :=
  (length h, h ++ [contents]).

Definition deref (h : heap) (r : ref) : list Z :=
  match h !! r with Some contents => contents | None => [] end.

(** [nums.sort(...)] sorts the array in place and answers the array itself. *)
Definition _sort (nums : ref) (h : heap) : ref * heap :=
  (nums, <[nums := sort compareFn (deref h nums)]> h).

(** One sample: the array [[quic, http, ws]] a Race Runner resolves with. *)
Definition TimingTriple : Type := Z * Z * Z.

Definition at0 (timingPair : TimingTriple) : Z := fst (fst timingPair).
Definition at1 (timingPair : TimingTriple) : Z := snd (fst timingPair).
Definition at2 (timingPair : TimingTriple) : Z := snd timingPair.

(** [JSON.stringify] of an array of integers. *)
Definition Z_to_string (z : Z) : string :=
  DecimalString.NilZero.string_of_int (Z.to_int z).

Definition JSON_stringify (nums : list Z) : string :=
  String.append "[" (String.append (String.concat "," (map Z_to_string nums)) "]").

Module Report.
(** The object [ret] that [_formatTimings] logs. *)
Record t : Type := Build {
  quicResponses : string;
  httpResponses : string;
  wsResponses : string;
  quicMean : number Q;
  httpMean : number Q;
  wsMean : number Q;
  quicMedian : option Z;
  httpMedian : option Z;
  wsMedian : option Z;
  quicHigh : option Z;
  httpHigh : option Z;
  wsHigh : option Z;
  quicLow : option Z;
  httpLow : option Z;
  wsLow : option Z;
  quicStdDev : number R;
  httpStdDev : number R;
  wsStdDev : number R;
  quicHighFive : ref;
  httpHighFive : ref;
  wsHighFive : ref;
  quicLowFive : ref;
  httpLowFive : ref;
  wsLowFive : ref
}.
End Report.

(** The array constants of [_formatTimings] when it reaches its end, with
    the logged object. *)
Record Locals : Type := {
  quicResponses : ref;
  httpResponses : ref;
  wsResponses : ref;
  sortedQuicResponses : ref;
  sortedHttpResponses : ref;
  sortedWSResponses : ref;
  ret : Report.t
}.

Definition _formatTimings (timings : list TimingTriple) (h : heap)
  : result (Locals * heap) :=
  let '(quicResponses, h) := alloc (map at0 timings) h in
  let '(httpResponses, h) := alloc (map at1 timings) h in
  let '(wsResponses, h) := alloc (map at2 timings) h in

  let '(sortedQuicResponses, h) := _sort quicResponses h in
  let '(sortedHttpResponses, h) := _sort httpResponses h in
  let '(sortedWSResponses, h) := _sort wsResponses h in

  let* quicMean := _calculateMean (deref h sortedQuicResponses) in
  let* httpMean := _calculateMean (deref h sortedHttpResponses) in
  let* wsMean := _calculateMean (deref h sortedWSResponses) in

  let quicMedian := _calculateMedian (deref h sortedQuicResponses) in
  let httpMedian := _calculateMedian (deref h sortedHttpResponses) in
  let wsMedian := _calculateMedian (deref h sortedWSResponses) in

  let quicHigh := _calculateHigh (deref h sortedQuicResponses) in
  let httpHigh := _calculateHigh (deref h sortedHttpResponses) in
  let wsHigh := _calculateHigh (deref h sortedWSResponses) in

  let quicLow := _calculateLow (deref h sortedQuicResponses) in
  let httpLow := _calculateLow (deref h sortedHttpResponses) in
  let wsLow := _calculateLow (deref h sortedWSResponses) in

  let* quicStdDev := _calculateStdDev (deref h sortedQuicResponses) in
  let* httpStdDev := _calculateStdDev (deref h sortedHttpResponses) in
  let* wsStdDev := _calculateStdDev (deref h sortedWSResponses) in

  let '(quicHighFive, h) := alloc (_getHighFive (deref h sortedQuicResponses)) h in
  let '(httpHighFive, h) := alloc (_getHighFive (deref h sortedHttpResponses)) h in
  let '(wsHighFive, h) := alloc (_getHighFive (deref h sortedWSResponses)) h in

  let '(quicLowFive, h) := alloc (_getLowFive (deref h sortedQuicResponses)) h in
  let '(httpLowFive, h) := alloc (_getLowFive (deref h sortedHttpResponses)) h in
  let '(wsLowFive, h) := alloc (_getLowFive (deref h sortedWSResponses)) h in

  let ret := Report.Build
    (JSON_stringify (deref h sortedQuicResponses))
    (JSON_stringify (deref h sortedHttpResponses))
    (JSON_stringify (deref h sortedWSResponses))
    quicMean httpMean wsMean
    quicMedian httpMedian wsMedian
    quicHigh httpHigh wsHigh
    quicLow httpLow wsLow
    quicStdDev httpStdDev wsStdDev
    quicHighFive httpHighFive wsHighFive
    quicLowFive httpLowFive wsLowFive in

  Ok ({| quicResponses := quicResponses;
         httpResponses := httpResponses;
         wsResponses := wsResponses;
         sortedQuicResponses := sortedQuicResponses;
         sortedHttpResponses := sortedHttpResponses;
         sortedWSResponses := sortedWSResponses;
         ret := ret |}, h).


(** ** Promises *)

Inductive promise (A : Type) : Type :=
| Pending
| Resolved (v : A)
| Rejected (reason : string).
Arguments Pending {A}.
Arguments Resolved {A} v.
Arguments Rejected {A} reason.

(** The [resolve] and [reject] handed to an executor: the first call
    settles the promise, every later call does nothing. *)
Definition resolve {A} (v : A) (p : promise A) : promise A :=
  match p with Pending => Resolved v | settled => settled end.

Definition reject {A} (reason : string) (p : promise A) : promise A :=
  match p with Pending => Rejected reason | settled => settled end.

Definition value_of {A} (p : promise A) : option A :=
  match p with Resolved v => Some v | _ => None end.

Definition reason_of {A} (p : promise A) : option string :=
  match p with Rejected e => Some e | _ => None end.

Fixpoint values_of {A} (ps : list (promise A)) : option (list A) :=
  match ps with
  | [] => Some []
  | p :: rest =>
      match value_of p, values_of rest with
      | Some v, Some vs => Some (v :: vs)
      | _, _ => None
      end
  end.

Fixpoint first_reason {A} (ps : list (promise A)) : option string :=
  match ps with
  | [] => None
  | p :: rest =>
      match reason_of p with
      | Some e => Some e
      | None => first_reason rest
      end
  end.

(** [Promise.all(ps)] at the time it is called: its reactions to the
    promises that are settled by then run in the order of the array. *)
Definition Promise_all {A} (ps : list (promise A)) : promise (list A) :=
  match first_reason ps with
  | Some e => Rejected e
  | None =>
      match values_of ps with
      | Some vs => Resolved vs
      | None => Pending
      end
  end.

(** The reaction of a [Promise.all(ps)] to one of [ps] going from
    [before] to [after], [ps] being the array after that. *)
Definition Promise_all_react {A} (before after : promise A)
    (ps : list (promise A)) (all : promise (list A)) : promise (list A) :=
  match before, after with
  | Pending, Rejected e => reject e all
  | Pending, Resolved _ =>
      match values_of ps with
      | Some vs => resolve vs all
      | None => all
      end
  | _, _ => all
  end.

(** ** The run configuration *)

(** The two numbers of the environment are taken to be whole numbers, the
    only values a number of instances or a port can have; the fractions
    and infinities that [Number] can also give are not modelled. *)
Record ProcessEnv : Type := {
  env_NUM_SPINUPS : option Z;   (* [Number(process.env.NUM_SPINUPS)], [None] when it is [NaN] *)
  env_START_PORT : option Z;    (* [Number(process.env.START_PORT)], [None] when it is [NaN] *)
  env_ADDRESS : option string;
  env_DATA_SIZE : option string
}.

Record Config : Type := {
  NUM_SPINUPS : Z;
  START_PORT : Z;
  ADDRESS : string;
  DATA_SIZE : string
}.

(** [Number(v) || d] *)
Definition number_or (v : option Z) (d : Z) : Z :=
  match v with
  | Some n => if n =? 0 then d else n
  | None => d
  end.

(** [v || d] on strings *)
Definition string_or (v : option string) (d : string) : string :=
  match v with
  | Some EmptyString | None => d
  | Some s => s
  end.

Definition configure (e : ProcessEnv) : Config :=
  {| NUM_SPINUPS := number_or (env_NUM_SPINUPS e) 1;
     START_PORT := number_or (env_START_PORT e) 8000;
     ADDRESS := string_or (env_ADDRESS e) "0.0.0.0";
     DATA_SIZE := string_or (env_DATA_SIZE e) "0" |}.

(** ** The world around the process *)

Inductive transport : Type := QUIC | HTTP | WS.

#[global] Instance transport_eq_dec : EqDecision transport.
Proof. solve_decision. Defined.

(** A reply that reaches the process: the callback of the operation of
    transport [via] of the [runner]-th call of [runAsClient] is run. *)
Record Reply : Type := { runner : nat; via : transport }.

Record World : Type := {
  (** the value of the [k]-th [(new Date()).valueOf()] of the run *)
  clock : nat -> Z;
  (** what the [k]-th [fs.readFileSync] of the run answers for a file *)
  fixture : string -> nat -> string;
  (** what the server of a transport on a port answers to a payload *)
  respond : transport -> Z -> string -> string;
  (** the replies that arrive while [main] awaits its [k]-th [_sleep(1)] *)
  during_sleep : nat -> list Reply;
  (** the replies that arrive once [main] has returned *)
  afterwards : list Reply
}.

(** ** The state of the process *)

(** One of the three promises of a Race Runner, with the constants of its
    executor. *)
Record Operation : Type := {
  port : Z;
  start : Z;
  outcome : promise Z
}.

(** What a call of [runAsClient] leaves behind: its constant [data], its
    three promises and the [Promise.all] it returns. *)
Record Runner : Type := {
  data : string;
  quicPromise : Operation;
  httpPromise : Operation;
  wsPromise : Operation;
  race : promise TimingTriple
}.

Record State : Type := {
  clock_reads : nat;                  (* calls of [_getTime] so far *)
  file_reads : nat;                   (* calls of [fs.readFileSync] so far *)
  listeners : list (transport * Z);   (* servers asked to listen, with their port *)
  responsePromises : list Runner;     (* the array of [main], in the order of [push] *)
  joined : option (promise (list TimingTriple));
                                      (* [Promise.all(responsePromises)], once [main] has called it *)
  logged : option (result (Locals * heap))
                                      (* the run of [_formatTimings], once it has been called *)
}.

Definition initial : State :=
  {| clock_reads := 0; file_reads := 0; listeners := [];
     responsePromises := []; joined := None; logged := None |}.

Definition _getTime (w : World) (st : State) : Z * State :=
  (clock w (clock_reads st),
   {| clock_reads := S (clock_reads st); file_reads := file_reads st;
      listeners := listeners st; responsePromises := responsePromises st;
      joined := joined st; logged := logged st |}).

Definition readFileSync (w : World) (file : string) (st : State) : string * State :=
  (fixture w file (file_reads st),
   {| clock_reads := clock_reads st; file_reads := S (file_reads st);
      listeners := listeners st; responsePromises := responsePromises st;
      joined := joined st; logged := logged st |}).

Definition set_responsePromises (rs : list Runner) (st : State) : State :=
  {| clock_reads := clock_reads st; file_reads := file_reads st;
     listeners := listeners st; responsePromises := rs;
     joined := joined st; logged := logged st |}.

Definition set_joined (j : option (promise (list TimingTriple)))
    (l : option (result (Locals * heap))) (st : State) : State :=
  {| clock_reads := clock_reads st; file_reads := file_reads st;
     listeners := listeners st; responsePromises := responsePromises st;
     joined := j; logged := l |}.

(** ** Server mode *)

Definition runAsServer (quicPort httpPort wsPort : Z) (st : State) : State :=
  {| clock_reads := clock_reads st; file_reads := file_reads st;
     listeners := listeners st ++ [(QUIC, quicPort); (HTTP, httpPort); (WS, wsPort)];
     responsePromises := responsePromises st;
     joined := joined st; logged := logged st |}.

(** ** Client mode *)

(** The executor of each of the three promises starts with
    [const start = _getTime()]. *)
Definition executor (w : World) (port : Z) (st : State) : Operation * State :=
  let '(start, st) := _getTime w st in
  ({| port := port; start := start; outcome := Pending |}, st).

(** [runAsClient] reads the payload, creates its three promises and
    returns their [Promise.all], which [main] pushes onto
    [responsePromises]: the state keeps the runner at the end of that
    array.  The requests leave with the executors (the one of the web
    socket when its connection opens); what the transports do with them is
    the [respond] and the schedule of the [World].  The failures of a
    transport itself ([onError], the [err] of [request]) are not part of
    the model, nor is [ws.close()]. *)
Definition runAsClient (w : World) (c : Config) (quicPort httpPort wsPort : Z)
    (st : State) : State :=
  let '(data, st) := readFileSync w (String.append (DATA_SIZE c) "kb") st in
  let '(quicPromise, st) := executor w quicPort st in
  let '(httpPromise, st) := executor w httpPort st in
  let '(wsPromise, st) := executor w wsPort st in
  set_responsePromises
    (responsePromises st ++
       [{| data := data; quicPromise := quicPromise; httpPromise := httpPromise;
           wsPromise := wsPromise; race := Pending |}])
    st.

Definition wrong_response (t : transport) : string :=
  match t with
  | QUIC => "QUIC received wrong response"
  | HTTP => "HTTP received wrong response"
  | WS => "WS received wrong response"
  end.

(** The callback given to [onData], to [request] and to [ws.on('message')]:
    [if (resp !== data) reject(...)] and then, in every case,
    [resolve(_getTime() - start)]. *)
Definition callback (w : World) (t : transport) (data resp : string)
    (op : Operation) (st : State) : Operation * State :=
  let rejected :=
    if negb (String.eqb resp data) then reject (wrong_response t) (outcome op)
    else outcome op in
  let '(now, st) := _getTime w st in
  ({| port := port op; start := start op;
      outcome := resolve (now - start op) rejected |}, st).

Definition operation_of (t : transport) (r : Runner) : Operation :=
  match t with
  | QUIC => quicPromise r
  | HTTP => httpPromise r
  | WS => wsPromise r
  end.

Definition set_operation (t : transport) (op : Operation) (r : Runner) : Runner :=
  match t with
  | QUIC => {| data := data r; quicPromise := op; httpPromise := httpPromise r;
               wsPromise := wsPromise r; race := race r |}
  | HTTP => {| data := data r; quicPromise := quicPromise r; httpPromise := op;
               wsPromise := wsPromise r; race := race r |}
  | WS => {| data := data r; quicPromise := quicPromise r; httpPromise := httpPromise r;
             wsPromise := op; race := race r |}
  end.

Definition set_race (p : promise TimingTriple) (r : Runner) : Runner :=
  {| data := data r; quicPromise := quicPromise r; httpPromise := httpPromise r;
     wsPromise := wsPromise r; race := p |}.

(** The reaction of [Promise.all([quicPromise, httpPromise, wsPromise])]
    to one of the three going from [before] to [after]. *)
Definition race_react (before after : promise Z) (r : Runner) : promise TimingTriple :=
  match before, after with
  | Pending, Rejected e => reject e (race r)
  | Pending, Resolved _ =>
      match outcome (quicPromise r), outcome (httpPromise r), outcome (wsPromise r) with
      | Resolved a, Resolved b, Resolved c => resolve (a, b, c) (race r)
      | _, _, _ => race r
      end
  | _, _ => race r
  end.

(** [.then(_formatTimings)] on the joined promise going from [before] to
    [after]. *)
Definition then_formatTimings (before after : promise (list TimingTriple))
    (logged : option (result (Locals * heap))) : option (result (Locals * heap)) :=
  match before, after with
  | Pending, Resolved timings => Some (_formatTimings timings [])
  | _, _ => logged
  end.

(** One reply reaches the process: the callback runs, then the promises
    that wait for the operation react. *)
Definition deliver (w : World) (reply : Reply) (st : State) : State :=
  match responsePromises st !! runner reply with
  | None => st
  | Some r =>
      let before := operation_of (via reply) r in
      let resp := respond w (via reply) (port before) (data r) in
      let '(after, st) := callback w (via reply) (data r) resp before st in
      let r' := set_operation (via reply) after r in
      let r'' := set_race (race_react (outcome before) (outcome after) r') r' in
      let rs := <[runner reply := r'']> (responsePromises st) in
      let st := set_responsePromises rs st in
      match joined st with
      | None => st
      | Some all =>
          let all' := Promise_all_react (race r) (race r'') (map race rs) all in
          set_joined (Some all') (then_formatTimings all all' (logged st)) st
      end
  end.

Definition deliver_all (w : World) (replies : list Reply) (st : State) : State :=
  fold_left (fun st reply => deliver w reply st) replies st.

(** [Promise.all(responsePromises).then(_formatTimings)] *)
Definition join (st : State) : State :=
  let all := Promise_all (map race (responsePromises st)) in
  set_joined (Some all) (then_formatTimings Pending all None) st.

(** ** [main] *)

(** The [for] loop of [main], from the value [p] of its counter on; [sleeps]
    counts the [await _sleep(1)] passed.  [None]: the fuel did not suffice. *)
Fixpoint main_loop (w : World) (c : Config) (isClient : bool)
    (fuel : nat) (p : Z) (sleeps : nat) (st : State) : option State :=
  if p <? START_PORT c + NUM_SPINUPS c then
    match fuel with
    | O => None
    | S fuel =>
        if isClient then
          let st := runAsClient w c p (p + NUM_SPINUPS c) (p + NUM_SPINUPS c * 2) st in
          let st := deliver_all w (during_sleep w sleeps) st in
          main_loop w c isClient fuel (p + 1) (S sleeps) st
        else
          let st := runAsServer p (p + NUM_SPINUPS c) (p + NUM_SPINUPS c * 2) st in
          main_loop w c isClient fuel (p + 1) sleeps st
    end
  else Some st.

Definition main (w : World) (c : Config) (isClient : bool) (fuel : nat) : option State :=
  match main_loop w c isClient fuel 8000 0 initial with
  | Some st => Some (if isClient then join st else st)
  | None => None
  end.

(** The whole run: [main], then the replies that arrive after it. *)
Definition run (w : World) (c : Config) (isClient : bool) (fuel : nat) : option State :=
  match main w c isClient fuel with
  | Some st => Some (deliver_all w (afterwards w) st)
  | None => None
  end.

(** The number of turns of the loop of [main]. *)
Definition turns (c : Config) : nat := Z.to_nat (START_PORT c + NUM_SPINUPS c - 8000).

(** ** The words of the specification

    The notions the properties below are stated with; none of them is used
    by the program. *)

(** The column of a transport in a sample set. *)
Definition column (t : transport) (timings : list TimingTriple) : list Z :=
  match t with
  | QUIC => map at0 timings
  | HTTP => map at1 timings
  | WS => map at2 timings
  end.

Definition sum_of (nums : list Z) : Z := fold_right Z.add 0 nums.

Definition arithmetic_mean (nums : list Z) : Q :=
  (inject_Z (sum_of nums) / inject_Z (Z.of_nat (length nums)))%Q.

(** The sum of the squared deviations of [nums] from [mu]. *)
Definition squared_deviations (mu : Q) (nums : list Z) : Q :=
  fold_right Qplus 0%Q (map (fun x => ((inject_Z x - mu) * (inject_Z x - mu))%Q) nums).

Definition population_variance (nums : list Z) : Q :=
  (squared_deviations (arithmetic_mean nums) nums / inject_Z (Z.of_nat (length nums)))%Q.

(** The statistics of a transport in the logged object. *)
Definition mean_of (t : transport) (r : Report.t) : number Q :=
  match t with
  | QUIC => Report.quicMean r
  | HTTP => Report.httpMean r
  | WS => Report.wsMean r
  end.

Definition median_of (t : transport) (r : Report.t) : option Z :=
  match t with
  | QUIC => Report.quicMedian r
  | HTTP => Report.httpMedian r
  | WS => Report.wsMedian r
  end.

Definition high_of (t : transport) (r : Report.t) : option Z :=
  match t with
  | QUIC => Report.quicHigh r
  | HTTP => Report.httpHigh r
  | WS => Report.wsHigh r
  end.

Definition low_of (t : transport) (r : Report.t) : option Z :=
  match t with
  | QUIC => Report.quicLow r
  | HTTP => Report.httpLow r
  | WS => Report.wsLow r
  end.

Definition stdDev_of (t : transport) (r : Report.t) : number R :=
  match t with
  | QUIC => Report.quicStdDev r
  | HTTP => Report.httpStdDev r
  | WS => Report.wsStdDev r
  end.

(** The projected array of a transport and the array [_sort] answered
    for it. *)
Definition responses_of (t : transport) (l : Locals) : ref :=
  match t with
  | QUIC => quicResponses l
  | HTTP => httpResponses l
  | WS => wsResponses l
  end.

Definition sorted_responses_of (t : transport) (l : Locals) : ref :=
  match t with
  | QUIC => sortedQuicResponses l
  | HTTP => sortedHttpResponses l
  | WS => sortedWSResponses l
  end.

(** The three ports a call of [runAsClient] was given. *)
Definition ports_of (r : Runner) : Z * Z * Z :=
  (port (quicPromise r), port (httpPromise r), port (wsPromise r)).

Definition outcomes (r : Runner) : list (promise Z) :=
  [outcome (quicPromise r); outcome (httpPromise r); outcome (wsPromise r)].

(** A [Promise.all] agrees with the promises it waits for: it is resolved
    with their values when they are all resolved, rejected when one of them
    is, and pending otherwise. *)
Definition joins {A} (ps : list (promise A)) (all : promise (list A)) : Prop :=
  match all with
  | Resolved vs => values_of ps = Some vs
  | Rejected _ => first_reason ps <> None
  | Pending => values_of ps = None /\ first_reason ps = None
  end.

Definition race_joins (r : Runner) : Prop :=
  match race r with
  | Resolved (a, b, c) => outcomes r = [Resolved a; Resolved b; Resolved c]
  | Rejected _ => first_reason (outcomes r) <> None
  | Pending => values_of (outcomes r) = None /\ first_reason (outcomes r) = None
  end.

(** What [.then(_formatTimings)] has done by the time the joined promise
    is [all]. *)
Definition reported (all : promise (list TimingTriple)) : option (result (Locals * heap)) :=
  match all with
  | Resolved timings => Some (_formatTimings timings [])
  | _ => None
  end.

Definition consistent (st : State) : Prop :=
  Forall race_joins (responsePromises st)
  /\ match joined st with
     | None => logged st = None
     | Some all => joins (map race (responsePromises st)) all /\ logged st = reported all
     end.

(** The operation of transport [t] of the [i]-th runner is settled. *)
Definition settled (i : nat) (t : transport) (st : State) : Prop :=
  exists r, responsePromises st !! i = Some r /\ outcome (operation_of t r) <> Pending.

(** No operation was started after a clock reading still to come, and the
    operations that are over were resolved with a duration that is not
    negative. *)
Definition timed (w : World) (st : State) : Prop :=
  Forall (fun r => forall t,
            (forall k, (clock_reads st <= k)%nat -> start (operation_of t r) <= clock w k)
            /\ match outcome (operation_of t r) with
               | Pending => True
               | Resolved d => 0 <= d
               | Rejected _ => False
               end)
         (responsePromises st).

(** What a call of [runAsClient] fixes for good: the payload and the ports. *)
Definition launch (r : Runner) : string * (Z * Z * Z) := (data r, ports_of r).

(** The calls the loop of [main] makes in [n] turns from the value [p] of
    its counter, the payload file having been read [k] times before. *)
Fixpoint launches (w : World) (c : Config) (n : nat) (p : Z) (k : nat)
  : list (string * (Z * Z * Z)) :=
  match n with
  | O => []
  | S n =>
      (fixture w (String.append (DATA_SIZE c) "kb") k,
       (p, p + NUM_SPINUPS c, p + NUM_SPINUPS c * 2))
      :: launches w c n (p + 1) (S k)
  end.

(** The ports the servers of [n] turns listen on. *)
Fixpoint bindings (c : Config) (n : nat) (p : Z) : list (transport * Z) :=
  match n with
  | O => []
  | S n =>
      (QUIC, p) :: (HTTP, p + NUM_SPINUPS c) :: (WS, p + NUM_SPINUPS c * 2)
      :: bindings c n (p + 1)
  end.

(** The runner after the callback of its operation [t] has run with the
    reply [resp] at the clock reading [now]. *)
Definition replied (t : transport) (resp : string) (now : Z) (r : Runner) : Runner :=
  let before := operation_of t r in
  let after :=
    {| port := port before; start := start before;
       outcome := resolve (now - start before)
                    (if negb (String.eqb resp (data r))
                     then reject (wrong_response t) (outcome before)
                     else outcome before) |} in
  let r' := set_operation t after r in
  set_race (race_react (outcome before) (outcome after) r') r'.

(** An operation is resolved only on a reply that equals the payload, and
    rejected only on one that differs, with the error of its transport. *)
Definition honest (w : World) (st : State) : Prop :=
  Forall (fun r => forall t,
            match outcome (operation_of t r) with
            | Pending => True
            | Resolved _ => respond w t (port (operation_of t r)) (data r) = data r
            | Rejected e =>
                e = wrong_response t
                /\ respond w t (port (operation_of t r)) (data r) <> data r
            end)
         (responsePromises st).

(** The reply to the operation of transport [t] of the [i]-th runner
    arrives, in a run of [n] turns, once the runner is there. *)
Definition arrives (w : World) (n i : nat) (t : transport) : Prop :=
  (exists k, (i <= k < n)%nat /\ In {| runner := i; via := t |} (during_sleep w k))
  \/ In {| runner := i; via := t |} (afterwards w).

(** ** Sample worlds *)

Definition defaults (n start : Z) : Config :=
  configure {| env_NUM_SPINUPS := Some n; env_START_PORT := Some start;
               env_ADDRESS := None; env_DATA_SIZE := None |}.

(** Servers that echo, a clock that ticks three milliseconds a reading, and
    replies that reach two runners in some order. *)
Definition echoing : World :=
  {| clock := fun k => 1000 + 3 * Z.of_nat k;
     fixture := fun _ _ => "ping"%string;
     respond := fun _ _ payload => payload;
     during_sleep := fun k =>
       match k with
       | O => [{| runner := 0; via := HTTP |}]
       | _ => []
       end;
     afterwards :=
       [{| runner := 1; via := WS |}; {| runner := 0; via := QUIC |};
        {| runner := 1; via := QUIC |}; {| runner := 0; via := WS |};
        {| runner := 1; via := HTTP |}] |}.

(** The same, but the payload file is rewritten after its first reading. *)
Definition rewritten : World :=
  {| clock := clock echoing;
     fixture := fun _ k => match k with O => "ping"%string | _ => "pong"%string end;
     respond := respond echoing;
     during_sleep := during_sleep echoing;
     afterwards := afterwards echoing |}.

(** The same as [echoing], but the HTTP servers answer something else. *)
Definition garbling : World :=
  {| clock := clock echoing;
     fixture := fixture echoing;
     respond := fun t _ payload =>
       match t with
       | HTTP => "pong"%string
       | _ => payload
       end;
     during_sleep := during_sleep echoing;
     afterwards := afterwards echoing |}.


(** ** More words, for the rest of the program *)

(** The tail samples and the serialised sequence of a transport in the
    logged object. *)
Definition highFive_of (t : transport) (r : Report.t) : ref :=
  match t with
  | QUIC => Report.quicHighFive r
  | HTTP => Report.httpHighFive r
  | WS => Report.wsHighFive r
  end.

Definition lowFive_of (t : transport) (r : Report.t) : ref :=
  match t with
  | QUIC => Report.quicLowFive r
  | HTTP => Report.httpLowFive r
  | WS => Report.wsLowFive r
  end.

Definition responses_json_of (t : transport) (r : Report.t) : string :=
  match t with
  | QUIC => Report.quicResponses r
  | HTTP => Report.httpResponses r
  | WS => Report.wsResponses r
  end.

(** The servers a runner sends to. *)
Definition targets (r : Runner) : list (transport * Z) :=
  [(QUIC, port (quicPromise r)); (HTTP, port (httpPromise r)); (WS, port (wsPromise r))].

(** The three operations of a runner were started at three successive
    readings of the clock, and an operation that is resolved holds the
    difference between a later reading and its own start. *)
Definition stamped (w : World) (st : State) : Prop :=
  Forall (fun r => exists j : nat,
            (S (S j) < clock_reads st)%nat
            /\ start (quicPromise r) = clock w j
            /\ start (httpPromise r) = clock w (S j)
            /\ start (wsPromise r) = clock w (S (S j))
            /\ forall t d, outcome (operation_of t r) = Resolved d ->
                 exists k, (S (S j) < k < clock_reads st)%nat
                           /\ d = clock w k - start (operation_of t r))
         (responsePromises st).

(** No reply ever reaches the operation of transport [t] of the [i]-th
    runner. *)
Definition never_arrives (w : World) (i : nat) (t : transport) : Prop :=
  (forall k, ~ In {| runner := i; via := t |} (during_sleep w k))
  /\ ~ In {| runner := i; via := t |} (afterwards w).

(** The world [echoing] without the reply of the web socket of the second
    runner. *)
Definition stalling : World :=
  {| clock := clock echoing;
     fixture := fixture echoing;
     respond := respond echoing;
     during_sleep := during_sleep echoing;
     afterwards :=
       [{| runner := 0; via := QUIC |}; {| runner := 1; via := QUIC |};
        {| runner := 0; via := WS |}; {| runner := 1; via := HTTP |}] |}.

(** A rejection can be traced: a rejected runner has an operation rejected
    with the same reason, and a rejected run has a runner rejected with the
    same reason. *)
Definition blamed (st : State) : Prop :=
  Forall (fun r => forall e, race r = Rejected e ->
                     exists t, outcome (operation_of t r) = Rejected e)
         (responsePromises st)
  /\ forall e, joined st = Some (Rejected e) ->
       exists r, In r (responsePromises st) /\ race r = Rejected e.

(** How many runners a run asks for when [START_PORT] is left alone. *)
Definition requested (e : ProcessEnv) : nat :=
  match env_NUM_SPINUPS e with
  | Some n => if n =? 0 then 1%nat else Z.to_nat n
  | None => 1%nat
  end.

(** ** The program on small inputs *)

Example median_of_four : _calculateMedian [10; 20; 30; 40] = Some 30.
Proof. reflexivity. Qed.

Example mean_of_four : _calculateMean [10; 20; 30; 41] = Ok (Num (101 # 4)).
Proof. reflexivity. Qed.

Example variance_of_two : _calculateVariance (Num (6 # 1)) [4; 8] = Num (8 # 2).
Proof. reflexivity. Qed.

Example sort_of_five : sorted_contents [3; 1; 2; 1; -5] = [-5; 1; 1; 2; 3].
Proof. reflexivity. Qed.

Example tails_of_seven :
  _getHighFive [1; 2; 3; 4; 5; 6; 7] = [3; 4; 5; 6; 7]
  /\ _getLowFive [1; 2; 3; 4; 5; 6; 7] = [1; 2; 3; 4; 5]
  /\ _getHighFive [1; 2] = [1; 2]
  /\ _getLowFive [1; 2] = [1; 2].
Proof. repeat split. Qed.

Example stringify_of_three : JSON_stringify [1; -2; 30] = "[1,-2,30]"%string.
Proof. reflexivity. Qed.

(** Three instances from the default start port listen on nine ports. *)
Example servers_of_three :
  option_map listeners (run echoing (defaults 3 8000) false 3)
  = Some [(QUIC, 8000); (HTTP, 8003); (WS, 8006);
          (QUIC, 8001); (HTTP, 8004); (WS, 8007);
          (QUIC, 8002); (HTTP, 8005); (WS, 8008)].
Proof. reflexivity. Qed.

(** The loop with too little fuel gives no state. *)
Example servers_out_of_fuel : run echoing (defaults 3 8000) false 2 = None.
Proof. reflexivity. Qed.

Example samples_of_two_runners :
  option_map joined (run echoing (defaults 2 8000) true 2)
  = Some (Some (Resolved [(24, 6, 24); (15, 18, 3)])).
Proof. reflexivity. Qed.

Example garbled_reply_of_two_runners :
  option_map (fun st => (joined st, logged st)) (run garbling (defaults 2 8000) true 2)
  = Some (Some (Rejected "HTTP received wrong response"), None).
Proof. reflexivity. Qed.

(** ** The sort *)

Section Sort.

Context {A : Type} (cmp : A -> A -> option Z).

Lemma insert_Permutation (x : A) (l : list A) :
  Permutation (insert cmp x l) (x :: l).
Proof.
  induction l as [|y l IH]; simpl; [reflexivity|].
  destruct (order (cmp x y) >? 0); [|reflexivity].
  rewrite IH. apply perm_swap.
Qed.

Lemma sort_Permutation (l : list A) : Permutation (sort cmp l) l.
Proof.
  induction l as [|x l IH]; simpl; [constructor|].
  rewrite insert_Permutation. now constructor.
Qed.

Lemma sort_length (l : list A) : length (sort cmp l) = length l.
Proof. apply Permutation_length, sort_Permutation. Qed.

(** Inserting [x] leaves the elements that satisfy [keep] in their order,
    provided [x] only passes elements that [keep] rejects when it keeps
    [x]. *)
Lemma filter_insert (keep : A -> bool) (x : A) (l : list A) :
  (forall y, keep x = true -> order (cmp x y) > 0 -> keep y = false) ->
  List.filter keep (insert cmp x l) = List.filter keep (x :: l).
Proof.
  intros Hpass. induction l as [|y l IH]; [reflexivity|].
  simpl. destruct (order (cmp x y) >? 0) eqn:Hgt; [|reflexivity].
  simpl. simpl in IH. rewrite IH.
  destruct (keep x) eqn:Hx; [|reflexivity].
  rewrite (Hpass y); [reflexivity|reflexivity|lia].
Qed.

End Sort.

Lemma order_compareFn (a b : Z) : (order (compareFn a b) >? 0) = (b <? a).
Proof.
  unfold compareFn.
  destruct (a <? b) eqn:H1; [simpl; lia|].
  destruct (a >? b) eqn:H2; [simpl; lia|].
  destruct (a =? b) eqn:H3; simpl; lia.
Qed.

Lemma insert_Sorted (x : Z) (l : list Z) :
  Sorted Z.le l -> Sorted Z.le (insert compareFn x l).
Proof.
  induction l as [|y l IH]; intros Hs; simpl.
  - repeat constructor.
  - rewrite order_compareFn.
    destruct (y <? x) eqn:Hyx.
    + apply Sorted_inv in Hs as [Hs Hhd]. constructor; [auto|].
      destruct l as [|z l]; simpl.
      * constructor. lia.
      * rewrite order_compareFn. destruct (z <? x) eqn:Hzx.
        -- constructor. now inversion Hhd.
        -- constructor. lia.
    + constructor; [assumption|]. constructor. lia.
Qed.

Lemma sorted_contents_Sorted (nums : list Z) : Sorted Z.le (sorted_contents nums).
Proof.
  unfold sorted_contents. induction nums as [|x l IH]; simpl.
  - constructor.
  - now apply insert_Sorted.
Qed.

Lemma sorted_contents_Permutation (nums : list Z) :
  Permutation (sorted_contents nums) nums.
Proof. apply sort_Permutation. Qed.

(** The ascending sequence of given elements is unique: whatever sorts the
    array, [sorted_contents] is what it leaves. *)
Lemma sorted_contents_unique (nums s : list Z) :
  Sorted Z.le s -> Permutation nums s -> sorted_contents nums = s.
Proof.
  intros Hs Hp. apply (Sorted_unique Z.le).
  - apply sorted_contents_Sorted.
  - assumption.
  - now rewrite sorted_contents_Permutation.
Qed.

(** The sort of records by a key is the sort of the keys. *)
Lemma sort_keys {T : Type} (items : list (Z * T)) :
  map fst (sort (fun a b => compareFn (fst a) (fst b)) items)
  = sorted_contents (map fst items).
Proof.
  unfold sorted_contents. induction items as [|x l IH]; [reflexivity|].
  simpl. rewrite <- IH. clear IH.
  induction (sort (fun a b => compareFn (fst a) (fst b)) l) as [|y l' IH']; [reflexivity|].
  simpl. destruct (order (compareFn (fst x) (fst y)) >? 0); simpl; [rewrite IH'; reflexivity|reflexivity].
Qed.

Lemma sort_stable {T : Type} (items : list (Z * T)) (k : Z) :
  List.filter (fun x => fst x =? k) (sort (fun a b => compareFn (fst a) (fst b)) items)
  = List.filter (fun x => fst x =? k) items.
Proof.
  induction items as [|x l IH]; [reflexivity|].
  simpl sort. rewrite filter_insert.
  - simpl. now rewrite IH.
  - intros y Hx Hgt. assert (H := order_compareFn (fst x) (fst y)). lia.
Qed.

(** ** The statistics of one array *)

Lemma fold_left_add (l : list Z) (a : Z) : fold_left Z.add l a = a + sum_of l.
Proof.
  revert a. induction l as [|x l IH]; intros a; simpl; [lia|].
  rewrite IH. lia.
Qed.

Lemma reduce1_add (nums : list Z) :
  nums <> [] -> reduce1 Z.add nums = Ok (sum_of nums).
Proof.
  destruct nums as [|x l]; [congruence|]. intros _. simpl.
  now rewrite fold_left_add.
Qed.

Lemma length_not_0 (nums : list Z) :
  nums <> [] -> Qeq_bool (inject_Z (Z.of_nat (length nums))) 0 = false.
Proof.
  intros Hne. destruct nums as [|x l]; [congruence|].
  apply not_true_is_false. intros H. apply Qeq_bool_iff in H.
  unfold Qeq in H. simpl in H. lia.
Qed.

Lemma _calculateMean_nonempty (nums : list Z) :
  nums <> [] -> _calculateMean nums = Ok (Num (arithmetic_mean nums)).
Proof.
  intros Hne. unfold _calculateMean. rewrite reduce1_add by assumption.
  simpl. unfold quot. now rewrite length_not_0.
Qed.

Lemma floor_half (n : nat) :
  Math_floor (inject_Z (Z.of_nat n) / 2)%Q = Z.of_nat (n / 2).
Proof.
  rewrite Nat2Z.inj_div.
  unfold Math_floor, Qfloor, Qdiv, Qmult, Qinv, inject_Z. simpl.
  now rewrite Z.mul_1_r.
Qed.

Lemma _calculateMedian_lookup (nums : list Z) :
  _calculateMedian nums = nums !! (length nums / 2)%nat.
Proof.
  unfold _calculateMedian, get. rewrite floor_half.
  destruct (Z.ltb_spec (Z.of_nat (length nums / 2)) 0) as [H|H]; [lia|].
  now rewrite Nat2Z.id.
Qed.

Lemma _calculateLow_head (nums : list Z) : _calculateLow nums = head nums.
Proof. unfold _calculateLow, get. simpl. now destruct nums. Qed.

Lemma _calculateHigh_last (nums : list Z) : _calculateHigh nums = last nums.
Proof.
  unfold _calculateHigh, get. destruct nums as [|x l]; [reflexivity|].
  destruct (Z.ltb_spec (Z.of_nat (length (x :: l)) - 1) 0) as [H|H];
    [simpl in H; lia|].
  rewrite last_lookup. f_equal. simpl. lia.
Qed.

(** In an ascending array every element lies between the first and the
    last. *)
Lemma Sorted_bounds (s : list Z) (lo hi x : Z) :
  Sorted Z.le s -> head s = Some lo -> last s = Some hi -> x ∈ s -> lo <= x <= hi.
Proof.
  intros Hs Hlo Hhi Hx.
  apply (Sorted_StronglySorted Z.le) in Hs. split.
  - destruct s as [|y s]; [discriminate|]. simpl in Hlo. injection Hlo as ->.
    apply StronglySorted_inv in Hs as [_ Hall]. rewrite Forall_forall in Hall.
    apply elem_of_cons in Hx as [->|Hx]; [lia|]. now apply Hall.
  - apply last_Some in Hhi as [front ->].
    apply StronglySorted_app in Hs as (Hle & _ & _).
    apply elem_of_app in Hx as [Hx|Hx].
    + apply Hle; [assumption|left].
    + apply list_elem_of_singleton in Hx. lia.
Qed.

Lemma sum_of_bounds (nums : list Z) (lo hi : Z) :
  (forall x, x ∈ nums -> lo <= x <= hi) ->
  lo * Z.of_nat (length nums) <= sum_of nums <= hi * Z.of_nat (length nums).
Proof.
  induction nums as [|x l IH]; intros Hb; [simpl; lia|].
  assert (Hx : lo <= x <= hi) by (apply Hb; left).
  assert (Hl : lo * Z.of_nat (length l) <= sum_of l <= hi * Z.of_nat (length l)).
  { apply IH. intros y Hy. apply Hb. now right. }
  simpl sum_of. rewrite length_cons, Nat2Z.inj_succ. lia.
Qed.

Lemma arithmetic_mean_bounds (nums : list Z) (lo hi : Z) :
  nums <> [] -> (forall x, x ∈ nums -> lo <= x <= hi) ->
  (inject_Z lo <= arithmetic_mean nums <= inject_Z hi)%Q.
Proof.
  intros Hne Hb. apply sum_of_bounds in Hb.
  assert (Hn : 0 < Z.of_nat (length nums)) by (destruct nums; [congruence|simpl; lia]).
  unfold arithmetic_mean.
  set (n := Z.of_nat (length nums)) in *. set (t := sum_of nums) in *.
  assert (Hq : (0 < inject_Z n)%Q) by (unfold Qlt; simpl; lia).
  split.
  - apply Qle_shift_div_l; [assumption|].
    rewrite <- inject_Z_mult, <- Zle_Qle. lia.
  - apply Qle_shift_div_r; [assumption|].
    rewrite <- inject_Z_mult, <- Zle_Qle. lia.
Qed.

Lemma reduce_squared_deviations (mu : Q) (nums : list Z) (acc : Q) :
  exists v : Q,
    reduce (fun variance num =>
              add (Math_pow (sub (Num (inject_Z num)) (Num mu)) 2) variance)
           (Num acc) nums = Num v
    /\ (v == acc + squared_deviations mu nums)%Q.
Proof.
  unfold reduce. revert acc. induction nums as [|x l IH]; intros acc.
  - exists acc. split; [reflexivity|]. unfold squared_deviations. simpl. ring.
  - simpl fold_left.
    destruct (IH (Qpower_positive (inject_Z x - mu) 2 + acc)%Q) as (v & Hv & Hq).
    exists v. split; [exact Hv|].
    rewrite Hq.
    change (squared_deviations mu (x :: l))
      with ((inject_Z x - mu) * (inject_Z x - mu) + squared_deviations mu l)%Q.
    change (Qpower_positive (inject_Z x - mu) 2)
      with ((inject_Z x - mu) * (inject_Z x - mu))%Q.
    ring.
Qed.

Lemma _calculateVariance_nonempty (mu : Q) (nums : list Z) :
  nums <> [] ->
  exists var : Q,
    _calculateVariance (Num mu) nums = Num var
    /\ (var == squared_deviations mu nums / inject_Z (Z.of_nat (length nums)))%Q.
Proof.
  intros Hne. unfold _calculateVariance.
  destruct (reduce_squared_deviations mu nums 0) as (v & -> & Hq).
  exists (v / inject_Z (Z.of_nat (length nums)))%Q. split.
  - unfold div, quot. now rewrite length_not_0.
  - rewrite Hq. field. intros H0.
    apply Qeq_bool_iff in H0. now rewrite length_not_0 in H0.
Qed.

Lemma squared_deviations_nonneg (mu : Q) (nums : list Z) :
  (0 <= squared_deviations mu nums)%Q.
Proof.
  unfold squared_deviations. induction nums as [|x l IH]; simpl; [apply Qle_refl|].
  assert (H := Qsqr_nonneg (inject_Z x - mu)).
  replace 0%Q with (0 + 0)%Q by reflexivity. now apply Qplus_le_compat.
Qed.

Lemma squared_deviations_0 (mu : Q) (nums : list Z) :
  (squared_deviations mu nums == 0)%Q <-> (forall x, x ∈ nums -> (inject_Z x == mu)%Q).
Proof.
  induction nums as [|x l IH].
  - split; [intros _ y Hy; inversion Hy|reflexivity].
  - assert (Hx := Qsqr_nonneg (inject_Z x - mu)).
    assert (Hl := squared_deviations_nonneg mu l).
    change (squared_deviations mu (x :: l))
      with ((inject_Z x - mu) * (inject_Z x - mu) + squared_deviations mu l)%Q.
    split.
    + intros H0.
      assert (Hl0 : (squared_deviations mu l == 0)%Q).
      { apply Qle_antisym; [|assumption]. rewrite <- H0.
        rewrite <- (Qplus_0_l (squared_deviations mu l)) at 1.
        apply Qplus_le_compat; [assumption|apply Qle_refl]. }
      assert (Hx0 : ((inject_Z x - mu) * (inject_Z x - mu) == 0)%Q).
      { rewrite Hl0, Qplus_0_r in H0. exact H0. }
      intros y Hy. apply elem_of_cons in Hy as [->|Hy].
      * assert (Hd : (inject_Z x - mu == 0)%Q)
          by (apply Qmult_integral in Hx0; tauto).
        rewrite <- (Qplus_0_l mu), <- Hd. ring.
      * now apply IH.
    + intros Hall.
      assert (Hl0 : (squared_deviations mu l == 0)%Q).
      { apply IH. intros y Hy. apply Hall. now right. }
      assert (Hx0 : (inject_Z x == mu)%Q) by (apply Hall; left).
      rewrite Hl0, Hx0. ring.
Qed.

Lemma sum_of_constant (nums : list Z) (c : Z) :
  (forall x, x ∈ nums -> x = c) -> sum_of nums = c * Z.of_nat (length nums).
Proof.
  induction nums as [|x l IH]; intros Hc; [simpl; lia|].
  simpl sum_of. rewrite length_cons, Nat2Z.inj_succ.
  rewrite (Hc x) by left. rewrite IH; [lia|].
  intros y Hy. apply Hc. now right.
Qed.

(** The variance of a non-empty array vanishes exactly when its elements
    are all the same. *)
Lemma population_variance_0 (nums : list Z) :
  nums <> [] ->
  (population_variance nums == 0)%Q <-> (forall x y, x ∈ nums -> y ∈ nums -> x = y).
Proof.
  intros Hne.
  assert (Hn : ~ (inject_Z (Z.of_nat (length nums)) == 0)%Q).
  { intros H0. apply Qeq_bool_iff in H0. now rewrite length_not_0 in H0. }
  unfold population_variance. split.
  - intros H0.
    assert (Hsd : (squared_deviations (arithmetic_mean nums) nums == 0)%Q).
    { apply (Qmult_inj_r _ _ (/ inject_Z (Z.of_nat (length nums)))).
      - intros Hinv. apply Hn. rewrite <- (Qinv_involutive (inject_Z _)), Hinv. reflexivity.
      - rewrite Qmult_0_l. exact H0. }
    rewrite squared_deviations_0 in Hsd.
    intros x y Hx Hy. apply Hsd in Hx, Hy.
    apply inject_Z_injective. rewrite Hx, Hy. reflexivity.
  - intros Hall. destruct nums as [|c l]; [congruence|].
    assert (Hc : forall x, x ∈ c :: l -> x = c) by (intros x Hx; apply Hall; [assumption|left]).
    assert (Hmean : (arithmetic_mean (c :: l) == inject_Z c)%Q).
    { unfold arithmetic_mean. rewrite (sum_of_constant _ c Hc), inject_Z_mult.
      field. exact Hn. }
    assert (Hsd : (squared_deviations (arithmetic_mean (c :: l)) (c :: l) == 0)%Q).
    { apply squared_deviations_0. intros x Hx. rewrite Hmean, (Hc x Hx). reflexivity. }
    rewrite Hsd. field. exact Hn.
Qed.

(** ** The formatting step *)

Lemma deref_app (h l : heap) (k : nat) : deref (h ++ l) (length h + k)%nat = deref l k.
Proof.
  unfold deref. rewrite lookup_app_r by lia.
  now replace (length h + k - length h)%nat with k by lia.
Qed.

Lemma deref_app_0 (h l : heap) : deref (h ++ l) (length h) = deref l 0%nat.
Proof. rewrite <- (deref_app h l 0). now rewrite Nat.add_0_r. Qed.

Lemma insert_app_0 (h l : heap) (x : list Z) :
  <[length h := x]> (h ++ l) = h ++ <[0%nat := x]> l.
Proof. rewrite <- (insert_app_r h l 0 x). now rewrite Nat.add_0_r. Qed.

Lemma deref_cons_0 (x : list Z) (l : heap) : deref (x :: l) 0%nat = x.
Proof. reflexivity. Qed.

Lemma deref_cons_S (x : list Z) (l : heap) (k : nat) : deref (x :: l) (S k) = deref l k.
Proof. reflexivity. Qed.

Lemma sorted_contents_nonempty (nums : list Z) : nums <> [] -> sorted_contents nums <> [].
Proof.
  intros Hne Hs. apply Hne. apply Permutation_nil.
  rewrite <- Hs. apply sorted_contents_Permutation.
Qed.

Lemma column_nonempty (t : transport) (timings : list TimingTriple) :
  timings <> [] -> column t timings <> [].
Proof. destruct timings; [congruence|]. now destruct t. Qed.

Lemma _calculateStdDev_nonempty (nums : list Z) :
  nums <> [] ->
  _calculateStdDev nums
  = Ok (Math_sqrt (_calculateVariance (Num (arithmetic_mean nums)) nums)).
Proof.
  intros Hne. unfold _calculateStdDev. now rewrite _calculateMean_nonempty.
Qed.

Lemma _formatTimings_nonempty (timings : list TimingTriple) (h : heap) :
  timings <> [] ->
  let s t := sorted_contents (column t timings) in
  let h' := h ++ [s QUIC; s HTTP; s WS;
                  _getHighFive (s QUIC); _getHighFive (s HTTP); _getHighFive (s WS);
                  _getLowFive (s QUIC); _getLowFive (s HTTP); _getLowFive (s WS)] in
  exists l : Locals,
    _formatTimings timings h = Ok (l, h')
    /\ forall t,
         sorted_responses_of t l = responses_of t l
         /\ (length h <= responses_of t l < length h + 3)%nat
         /\ h' !! responses_of t l = Some (s t)
         /\ mean_of t (ret l) = Num (arithmetic_mean (s t))
         /\ median_of t (ret l) = _calculateMedian (s t)
         /\ high_of t (ret l) = _calculateHigh (s t)
         /\ low_of t (ret l) = _calculateLow (s t)
         /\ _calculateStdDev (s t) = Ok (stdDev_of t (ret l)).
Proof.
  intros Hne s h'.
  assert (Hs : forall t, s t <> []).
  { intros t. apply sorted_contents_nonempty, column_nonempty, Hne. }
  cbv beta iota zeta delta [_formatTimings alloc _sort].
  rewrite !length_app. simpl length.
  rewrite <- !app_assoc. simpl app.
  rewrite insert_app_0, deref_app_0, deref_cons_0. simpl (<[0%nat := _]> _).
  rewrite insert_app_r, deref_app, !deref_cons_S, deref_cons_0. simpl (<[1%nat := _]> _).
  rewrite <- Nat.add_assoc. simpl (1 + 1)%nat.
  rewrite insert_app_r, deref_app, !deref_cons_S, deref_cons_0. simpl (<[2%nat := _]> _).
  fold (sorted_contents (map at0 timings)) (sorted_contents (map at1 timings))
       (sorted_contents (map at2 timings)).
  change (sorted_contents (map at0 timings)) with (s QUIC).
  change (sorted_contents (map at1 timings)) with (s HTTP).
  change (sorted_contents (map at2 timings)) with (s WS).
  repeat progress
    (rewrite <- ?app_assoc; simpl app;
     rewrite ?deref_app_0, ?deref_app, ?deref_cons_S, ?deref_cons_0).
  rewrite !_calculateStdDev_nonempty, !_calculateMean_nonempty by apply Hs.
  cbn [bind].
  eexists. split; [reflexivity|].
  intros t. destruct t; cbn [sorted_responses_of responses_of mean_of median_of
    high_of low_of stdDev_of ret quicResponses httpResponses wsResponses
    sortedQuicResponses sortedHttpResponses sortedWSResponses
    Report.quicMean Report.httpMean Report.wsMean
    Report.quicMedian Report.httpMedian Report.wsMedian
    Report.quicHigh Report.httpHigh Report.wsHigh
    Report.quicLow Report.httpLow Report.wsLow
    Report.quicStdDev Report.httpStdDev Report.wsStdDev].
  all: repeat split; try reflexivity; try lia;
    try (apply _calculateStdDev_nonempty, Hs).
  all: subst h'; rewrite lookup_app_r by lia.
  - now rewrite Nat.sub_diag.
  - now replace (length h + 1 - length h)%nat with 1%nat by lia.
  - now replace (length h + 2 - length h)%nat with 2%nat by lia.
Qed.

Lemma _formatTimings_empty (h : heap) :
  _formatTimings [] h = Throw (TypeError "Reduce of empty array with no initial value").
Proof.
  cbv beta iota zeta delta [_formatTimings alloc _sort].
  rewrite !length_app. simpl length.
  rewrite <- !app_assoc. simpl app.
  rewrite insert_app_0, deref_app_0, deref_cons_0. simpl (<[0%nat := _]> _).
  rewrite insert_app_r, deref_app, !deref_cons_S, deref_cons_0. simpl (<[1%nat := _]> _).
  rewrite <- Nat.add_assoc. simpl (1 + 1)%nat.
  rewrite insert_app_r, deref_app, !deref_cons_S, deref_cons_0. simpl (<[2%nat := _]> _).
  rewrite deref_app_0, deref_cons_0. reflexivity.
Qed.

Lemma slice_Sorted (nums : list Z) (a : Z) (b : option Z) :
  Sorted Z.le nums -> Sorted Z.le (slice nums a b).
Proof.
  intros Hs. apply (Sorted_StronglySorted Z.le) in Hs.
  apply StronglySorted_Sorted. unfold slice.
  set (n := Z.to_nat _). set (k := Z.to_nat _).
  rewrite <- (take_drop k nums) in Hs. apply StronglySorted_app_1_r in Hs.
  rewrite <- (take_drop n (skipn k nums)) in Hs.
  now apply StronglySorted_app_1_l in Hs.
Qed.

(** C4. For every non-empty sample the median that the statistics engine
    reports for a transport is the element at index floor(n/2) of the
    ascending sequence [s] of the durations of that transport; for an even
    n it is the upper one of the two middle elements (one more element
    before it than after it), so that [10, 20, 30, 40] has median 30. *)
Theorem median_is_upper_middle
    (t : transport) (timings : list TimingTriple) (h : heap) (s : list Z) :
  timings <> [] ->
  Sorted Z.le s ->
  Permutation (column t timings) s ->
  exists (l : Locals) (h' : heap) (m : Z) (front back : list Z),
    _formatTimings timings h = Ok (l, h')
    /\ median_of t (ret l) = Some m
    /\ s !! (length timings / 2)%nat = Some m
    /\ s = front ++ m :: back
    /\ length front = (length timings / 2)%nat
    /\ (Nat.even (length timings) = true -> length front = S (length back))
    /\ (Nat.even (length timings) = false -> length front = length back)
    /\ _calculateMedian [10; 20; 30; 40] = Some 30.
Proof.
  intros Hne Hsorted Hperm.
  destruct (_formatTimings_nonempty timings h Hne) as (l & Hrun & Hstats).
  destruct (Hstats t) as (_ & _ & _ & _ & Hmed & _).
  rewrite (sorted_contents_unique _ s Hsorted Hperm) in Hmed.
  rewrite _calculateMedian_lookup in Hmed.
  assert (Hlen : length s = length timings).
  { rewrite <- (Permutation_length Hperm). destruct t; apply length_map. }
  rewrite Hlen in Hmed.
  assert (Hn : (0 < length timings)%nat) by (destruct timings; [congruence|simpl; lia]).
  destruct (lookup_lt_is_Some_2 s (length timings / 2)) as [m Hm].
  { rewrite Hlen. apply Nat.div_lt; lia. }
  destruct (list_elem_of_split_length s _ m Hm) as (front & back & Hsplit & Hfront).
  eexists l, _, m, front, back.
  split; [exact Hrun|]. split; [congruence|]. split; [exact Hm|].
  split; [exact Hsplit|]. split; [congruence|].
  assert (Htotal : length timings = (length front + S (length back))%nat).
  { rewrite <- Hlen, Hsplit, length_app. reflexivity. }
  assert (Hdm := Nat.div_mod_eq (length timings) 2).
  assert (Hmod : (length timings mod 2 < 2)%nat) by (apply Nat.mod_upper_bound; lia).
  split; [|split; [|reflexivity]].
  - intros Heven. apply Nat.even_spec in Heven as [k Hk]. lia.
  - intros Hodd. rewrite <- Nat.negb_odd in Hodd. apply negb_false_iff in Hodd.
    apply Nat.odd_spec in Hodd as [k Hk]. lia.
Qed.

Lemma median_is_upper_middle_witness :
  exists (l : Locals) (h' : heap) (m : Z) (front back : list Z),
    _formatTimings [(40, 1, 1); (10, 2, 2); (30, 3, 3); (20, 4, 4)] [] = Ok (l, h')
    /\ median_of QUIC (ret l) = Some m
    /\ [10; 20; 30; 40] !! (length [(40, 1, 1); (10, 2, 2); (30, 3, 3); (20, 4, 4)] / 2)%nat = Some m
    /\ [10; 20; 30; 40] = front ++ m :: back
    /\ length front = (length [(40, 1, 1); (10, 2, 2); (30, 3, 3); (20, 4, 4)] / 2)%nat
    /\ (Nat.even (length [(40, 1, 1); (10, 2, 2); (30, 3, 3); (20, 4, 4)]) = true -> length front = S (length back))
    /\ (Nat.even (length [(40, 1, 1); (10, 2, 2); (30, 3, 3); (20, 4, 4)]) = false -> length front = length back)
    /\ _calculateMedian [10; 20; 30; 40] = Some 30.
Proof.
  apply (median_is_upper_middle QUIC [(40, 1, 1); (10, 2, 2); (30, 3, 3); (20, 4, 4)] [] [10; 20; 30; 40]).
  - discriminate.
  - repeat constructor; lia.
  - simpl. apply Permutation_sym.
    change [10; 20; 30; 40] with (sorted_contents [40; 10; 30; 20]).
    apply sorted_contents_Permutation.
Defined.

(** C5. The sort leaves in the array a non-decreasing sequence that is a
    permutation of what the array held; it is stable: whatever records
    [items] carry the durations, sorting them by duration with the same
    comparator orders the durations as the array is ordered and keeps the
    records of equal duration in their relative order. *)
Theorem sort_ascending_permutation_stable
    (nums : ref) (h : heap) (durations : list Z) :
  h !! nums = Some durations ->
  exists sortedDurations : list Z,
    snd (_sort nums h) !! fst (_sort nums h) = Some sortedDurations
    /\ Sorted Z.le sortedDurations
    /\ Permutation durations sortedDurations
    /\ forall (T : Type) (items : list (Z * T)),
         map fst items = durations ->
         map fst (sort (fun a b => compareFn (fst a) (fst b)) items) = sortedDurations
         /\ forall k : Z,
              List.filter (fun x => fst x =? k)
                          (sort (fun a b => compareFn (fst a) (fst b)) items)
              = List.filter (fun x => fst x =? k) items.
Proof.
  intros Hcell. exists (sorted_contents durations).
  assert (Hderef : deref h nums = durations) by (unfold deref; now rewrite Hcell).
  split; [|split; [|split]].
  - unfold _sort. simpl. rewrite Hderef.
    apply list_lookup_insert_eq. now apply lookup_lt_Some in Hcell.
  - apply sorted_contents_Sorted.
  - symmetry. apply sorted_contents_Permutation.
  - intros T items <-. split; [apply sort_keys|]. intros k. apply sort_stable.
Qed.

Lemma sort_ascending_permutation_stable_witness :
  exists sortedDurations : list Z,
    snd (_sort 1%nat [[7]; [30; 10; 20; 10]]) !! fst (_sort 1%nat [[7]; [30; 10; 20; 10]])
    = Some sortedDurations
    /\ Sorted Z.le sortedDurations
    /\ Permutation [30; 10; 20; 10] sortedDurations
    /\ forall (T : Type) (items : list (Z * T)),
         map fst items = [30; 10; 20; 10] ->
         map fst (sort (fun a b => compareFn (fst a) (fst b)) items) = sortedDurations
         /\ forall k : Z,
              List.filter (fun x => fst x =? k)
                          (sort (fun a b => compareFn (fst a) (fst b)) items)
              = List.filter (fun x => fst x =? k) items.
Proof.
  apply (sort_ascending_permutation_stable 1%nat [[7]; [30; 10; 20; 10]] [30; 10; 20; 10]).
  reflexivity.
Defined.

(** C7. For every non-empty array of durations the standard deviation is
    the square root of the population variance, the mean of the squared
    deviations from the arithmetic mean; it is never negative, and it is
    zero exactly when all the durations are equal. *)
Theorem stdDev_is_root_of_population_variance (nums : list Z) :
  nums <> [] ->
  exists variance : Q,
    _calculateMean nums = Ok (Num (arithmetic_mean nums))
    /\ _calculateVariance (Num (arithmetic_mean nums)) nums = Num variance
    /\ (variance == population_variance nums)%Q
    /\ _calculateStdDev nums = Ok (Num (sqrt (Q2R variance)))
    /\ (0 <= sqrt (Q2R variance))%R
    /\ (sqrt (Q2R variance) = 0%R <-> forall x y, In x nums -> In y nums -> x = y).
Proof.
  intros Hne.
  destruct (_calculateVariance_nonempty (arithmetic_mean nums) nums Hne) as (v & Hv & Hq).
  fold (population_variance nums) in Hq.
  assert (Hv0 : (0 <= v)%Q).
  { rewrite Hq. unfold population_variance.
    apply Qle_shift_div_l.
    - destruct nums; [congruence|]. unfold Qlt. simpl. lia.
    - rewrite Qmult_0_l. apply squared_deviations_nonneg. }
  exists v. split; [now apply _calculateMean_nonempty|]. split; [exact Hv|].
  split; [exact Hq|]. split; [|split].
  - rewrite _calculateStdDev_nonempty, Hv by assumption. unfold Math_sqrt.
    apply Qle_bool_iff in Hv0. now rewrite Hv0.
  - apply sqrt_pos.
  - assert (HvR : (0 <= Q2R v)%R) by (replace 0%R with (Q2R 0) by (unfold Q2R; simpl; lra); now apply Qle_Rle).
    transitivity (v == 0)%Q.
    + split.
      * intros H0. apply sqrt_eq_0 in H0; [|assumption].
        apply eqR_Qeq. rewrite H0. unfold Q2R. simpl. lra.
      * intros H0. apply Qeq_eqR in H0. rewrite H0.
        replace (Q2R 0) with 0%R by (unfold Q2R; simpl; lra). apply sqrt_0.
    + rewrite Hq, population_variance_0 by assumption.
      split; intros Hall x y Hx Hy; apply Hall; now apply list_elem_of_In.
Qed.

Lemma stdDev_is_root_of_population_variance_witness :
  exists variance : Q,
    _calculateMean [4; 8] = Ok (Num (arithmetic_mean [4; 8]))
    /\ _calculateVariance (Num (arithmetic_mean [4; 8])) [4; 8] = Num variance
    /\ (variance == population_variance [4%Z; 8%Z])%Q
    /\ _calculateStdDev [4; 8] = Ok (Num (sqrt (Q2R variance)))
    /\ (0 <= sqrt (Q2R variance))%R
    /\ (sqrt (Q2R variance) = 0%R <-> forall x y, In x [4; 8] -> In y [4; 8] -> x = y).
Proof.
  apply (stdDev_is_root_of_population_variance [4; 8]). discriminate.
Defined.

Lemma sum_of_Permutation (a b : list Z) : Permutation a b -> sum_of a = sum_of b.
Proof. induction 1; simpl; lia. Qed.

Lemma arithmetic_mean_Permutation (a b : list Z) :
  Permutation a b -> arithmetic_mean a = arithmetic_mean b.
Proof.
  intros Hp. unfold arithmetic_mean.
  now rewrite (sum_of_Permutation a b Hp), (Permutation_length Hp).
Qed.

(** C8. In the statistics reported for a transport over a non-empty
    sample, low is the first and high the last element of the sorted
    sequence of its durations, and both the median and the arithmetic mean
    lie in the closed interval from low to high. *)
Theorem low_high_bracket_median_and_mean
    (t : transport) (timings : list TimingTriple) (h : heap) :
  timings <> [] ->
  exists (l : Locals) (h' : heap) (sortedDurations : list Z) (lo hi med : Z) (mu : Q),
    _formatTimings timings h = Ok (l, h')
    /\ h' !! sorted_responses_of t l = Some sortedDurations
    /\ Sorted Z.le sortedDurations
    /\ Permutation (column t timings) sortedDurations
    /\ low_of t (ret l) = Some lo /\ head sortedDurations = Some lo
    /\ high_of t (ret l) = Some hi /\ last sortedDurations = Some hi
    /\ median_of t (ret l) = Some med
    /\ mean_of t (ret l) = Num mu
    /\ mu = arithmetic_mean (column t timings)
    /\ lo <= med <= hi
    /\ (inject_Z lo <= mu <= inject_Z hi)%Q.
Proof.
  intros Hne.
  destruct (_formatTimings_nonempty timings h Hne) as (l & Hrun & Hstats).
  destruct (Hstats t) as (Halias & _ & Hcell & Hmean & Hmed & Hhigh & Hlow & _).
  set (s := sorted_contents (column t timings)) in *.
  assert (Hsorted : Sorted Z.le s) by apply sorted_contents_Sorted.
  assert (Hperm : Permutation (column t timings) s)
    by (symmetry; apply sorted_contents_Permutation).
  assert (Hs : s <> []) by (apply sorted_contents_nonempty, column_nonempty, Hne).
  rewrite _calculateLow_head in Hlow. rewrite _calculateHigh_last in Hhigh.
  rewrite _calculateMedian_lookup in Hmed.
  destruct (head s) as [lo|] eqn:Hlo; [|destruct s; [congruence|discriminate]].
  destruct (last s) as [hi|] eqn:Hhi; [|apply last_None in Hhi; congruence].
  destruct (lookup_lt_is_Some_2 s (length s / 2)) as [med Hm].
  { apply Nat.div_lt; [|lia]. destruct s; [congruence|simpl; lia]. }
  eexists l, _, s, lo, hi, med, (arithmetic_mean s).
  split; [exact Hrun|]. split; [now rewrite Halias|].
  split; [exact Hsorted|]. split; [exact Hperm|].
  split; [exact Hlow|]. split; [exact Hlo|].
  split; [exact Hhigh|]. split; [exact Hhi|].
  split; [congruence|]. split; [exact Hmean|].
  split; [symmetry; now apply arithmetic_mean_Permutation|].
  split.
  - apply (Sorted_bounds s); try assumption. eapply list_elem_of_lookup_2, Hm.
  - apply arithmetic_mean_bounds; [assumption|].
    intros x Hx. now apply (Sorted_bounds s).
Qed.

Lemma low_high_bracket_median_and_mean_witness :
  exists (l : Locals) (h' : heap) (sortedDurations : list Z) (lo hi med : Z) (mu : Q),
    _formatTimings [(5, 9, 7); (3, 8, 7); (4, 2, 7)] [] = Ok (l, h')
    /\ h' !! sorted_responses_of HTTP l = Some sortedDurations
    /\ Sorted Z.le sortedDurations
    /\ Permutation (column HTTP [(5, 9, 7); (3, 8, 7); (4, 2, 7)]) sortedDurations
    /\ low_of HTTP (ret l) = Some lo /\ head sortedDurations = Some lo
    /\ high_of HTTP (ret l) = Some hi /\ last sortedDurations = Some hi
    /\ median_of HTTP (ret l) = Some med
    /\ mean_of HTTP (ret l) = Num mu
    /\ mu = arithmetic_mean (column HTTP [(5, 9, 7); (3, 8, 7); (4, 2, 7)])
    /\ lo <= med <= hi
    /\ (inject_Z lo <= mu <= inject_Z hi)%Q.
Proof.
  apply (low_high_bracket_median_and_mean HTTP [(5, 9, 7); (3, 8, 7); (4, 2, 7)] []).
  discriminate.
Defined.

(** C10. [_sort] sorts the array it is given in place, allocates nothing
    and answers the very same array.  Hence, after the formatting step, the
    array projected for a transport and its sorted array are one object,
    which holds the durations in ascending order; the arrays that were
    there before are untouched, and every array the step has allocated is
    in ascending order: none of them keeps the order of the sample. *)
Theorem sort_in_place_loses_sample_order (timings : list TimingTriple) (h : heap) :
  timings <> [] ->
  (forall (nums : ref) (h0 : heap),
      fst (_sort nums h0) = nums
      /\ length (snd (_sort nums h0)) = length h0
      /\ (forall contents, h0 !! nums = Some contents ->
            snd (_sort nums h0) !! nums = Some (sorted_contents contents))
      /\ (forall r, r <> nums -> snd (_sort nums h0) !! r = h0 !! r))
  /\ exists (l : Locals) (h' : heap),
       _formatTimings timings h = Ok (l, h')
       /\ (forall t, sorted_responses_of t l = responses_of t l
                     /\ h' !! responses_of t l = Some (sorted_contents (column t timings)))
       /\ (forall r, (r < length h)%nat -> h' !! r = h !! r)
       /\ (forall r contents, (length h <= r)%nat -> h' !! r = Some contents ->
             Sorted Z.le contents).
Proof.
  intros Hne. split.
  - intros nums h0. unfold _sort. simpl.
    split; [reflexivity|]. split; [apply length_insert|]. split.
    + intros contents Hcell. unfold deref. rewrite Hcell.
      apply list_lookup_insert_eq. now apply lookup_lt_Some in Hcell.
    + intros r Hr. now apply list_lookup_insert_ne.
  - destruct (_formatTimings_nonempty timings h Hne) as (l & Hrun & Hstats).
    eexists l, _. split; [exact Hrun|]. split; [|split].
    + intros t. destruct (Hstats t) as (Halias & _ & Hcell & _). now split.
    + intros r Hr. now apply lookup_app_l.
    + intros r contents Hr Hcell.
      rewrite lookup_app_r in Hcell by assumption.
      apply list_elem_of_lookup_2 in Hcell.
      repeat (apply elem_of_cons in Hcell as [->|Hcell]);
        try apply slice_Sorted; try apply sorted_contents_Sorted.
      inversion Hcell.
Qed.

Lemma sort_in_place_loses_sample_order_witness :
  (forall (nums : ref) (h0 : heap),
      fst (_sort nums h0) = nums
      /\ length (snd (_sort nums h0)) = length h0
      /\ (forall contents, h0 !! nums = Some contents ->
            snd (_sort nums h0) !! nums = Some (sorted_contents contents))
      /\ (forall r, r <> nums -> snd (_sort nums h0) !! r = h0 !! r))
  /\ exists (l : Locals) (h' : heap),
       _formatTimings [(5, 9, 7); (3, 8, 7); (4, 2, 7)] [[1; 0]] = Ok (l, h')
       /\ (forall t, sorted_responses_of t l = responses_of t l
                     /\ h' !! responses_of t l
                        = Some (sorted_contents (column t [(5, 9, 7); (3, 8, 7); (4, 2, 7)])))
       /\ (forall r, (r < length [[1; 0]])%nat -> h' !! r = [[1; 0]] !! r)
       /\ (forall r contents, (length [[1; 0]] <= r)%nat -> h' !! r = Some contents ->
             Sorted Z.le contents).
Proof.
  apply (sort_in_place_loses_sample_order [(5, 9, 7); (3, 8, 7); (4, 2, 7)] [[1; 0]]).
  discriminate.
Defined.

(** ** Promises and their joins *)

Lemma values_of_Some {A} (ps : list (promise A)) (vs : list A) :
  values_of ps = Some vs <-> ps = map Resolved vs.
Proof.
  revert vs. induction ps as [|p ps IH]; intros vs; simpl.
  - split; [intros [= <-]; reflexivity|]. destruct vs; [reflexivity|discriminate].
  - destruct p as [|v|e]; simpl.
    + split; [discriminate|]. destruct vs; discriminate.
    + destruct (values_of ps) as [vs'|] eqn:Hvs.
      * split.
        -- intros [= <-]. simpl. f_equal. now apply IH.
        -- destruct vs as [|v0 vs0]; [discriminate|]. simpl. intros [= -> Hps].
           f_equal. f_equal. apply IH in Hps. congruence.
      * split; [discriminate|]. destruct vs as [|v0 vs0]; [discriminate|].
        simpl. intros [= -> Hps]. apply IH in Hps. discriminate.
    + split; [discriminate|]. destruct vs; discriminate.
Qed.

Lemma first_reason_None {A} (ps : list (promise A)) :
  first_reason ps = None <-> Forall (fun p => reason_of p = None) ps.
Proof.
  induction ps as [|p ps IH]; simpl.
  - split; [constructor|reflexivity].
  - destruct (reason_of p) eqn:Hp.
    + split; [discriminate|]. intros H. inversion H. congruence.
    + rewrite IH. split; [now constructor|]. intros H. now inversion H.
Qed.

Lemma values_of_Pending {A} (ps : list (promise A)) (i : nat) :
  ps !! i = Some Pending -> values_of ps = None.
Proof.
  intros Hi. destruct (values_of ps) as [vs|] eqn:Hvs; [|reflexivity].
  apply values_of_Some in Hvs. subst ps.
  rewrite list_lookup_fmap in Hi. destruct (vs !! i); discriminate.
Qed.

Lemma Promise_all_joins {A} (ps : list (promise A)) : joins ps (Promise_all ps).
Proof.
  unfold Promise_all. destruct (first_reason ps) eqn:Hr.
  - simpl. congruence.
  - destruct (values_of ps) eqn:Hv; simpl; auto.
Qed.

Lemma Promise_all_react_settled {A} (before after : promise A)
    (ps : list (promise A)) (all : promise (list A)) :
  all <> Pending -> Promise_all_react before after ps all = all.
Proof.
  intros Hall. unfold Promise_all_react.
  destruct before, after, all; try congruence; simpl; try reflexivity;
    destruct (values_of ps); reflexivity.
Qed.

(** A join keeps agreeing with its promises when one of them settles. *)
Lemma joins_react {A} (ps : list (promise A)) (all : promise (list A))
    (i : nat) (before after : promise A) :
  joins ps all ->
  ps !! i = Some before ->
  after = before \/ before = Pending ->
  joins (<[i := after]> ps) (Promise_all_react before after (<[i := after]> ps) all).
Proof.
  intros Hj Hi [->| ->].
  - rewrite list_insert_id by assumption.
    replace (Promise_all_react before before ps all) with all; [assumption|].
    now destruct before.
  - assert (Hnone : values_of ps = None) by (eapply values_of_Pending; eassumption).
    assert (Hlt : (i < length ps)%nat) by (eapply lookup_lt_Some; eassumption).
    destruct after as [|v|e].
    + now rewrite list_insert_id by assumption.
    + simpl. destruct all as [|vs|e0]; simpl in Hj.
      * destruct Hj as [_ Hr].
        assert (Hr' : first_reason (<[i := Resolved v]> ps) = None).
        { apply first_reason_None, Forall_insert; [now apply first_reason_None|reflexivity]. }
        destruct (values_of (<[i := Resolved v]> ps)) eqn:Hv; simpl; auto.
      * congruence.
      * assert (Hr' : first_reason (<[i := Resolved v]> ps) <> None).
        { intros Hr. apply Hj. apply first_reason_None.
          rewrite <- (list_insert_id ps i Pending Hi).
          rewrite <- (list_insert_insert_eq ps i Pending (Resolved v)).
          apply Forall_insert; [now apply first_reason_None|reflexivity]. }
        destruct (values_of (<[i := Resolved v]> ps)); simpl; assumption.
    + assert (Hr' : first_reason (<[i := Rejected e]> ps) <> None).
      { intros Hr. apply first_reason_None in Hr. rewrite Forall_lookup in Hr.
        specialize (Hr i (Rejected e)). rewrite list_lookup_insert_eq in Hr by assumption.
        specialize (Hr eq_refl). discriminate. }
      simpl. destruct all as [|vs|e0]; simpl in *; [assumption|congruence|assumption].
Qed.

(** ** One reply *)

Lemma deliver_None (w : World) (reply : Reply) (st : State) :
  responsePromises st !! runner reply = None -> deliver w reply st = st.
Proof. intros H. unfold deliver. now rewrite H. Qed.

Lemma deliver_Some (w : World) (reply : Reply) (st : State) (r : Runner) :
  responsePromises st !! runner reply = Some r ->
  let r'' := replied (via reply)
               (respond w (via reply) (port (operation_of (via reply) r)) (data r))
               (clock w (clock_reads st)) r in
  let rs := <[runner reply := r'']> (responsePromises st) in
  deliver w reply st
  = {| clock_reads := S (clock_reads st);
       file_reads := file_reads st;
       listeners := listeners st;
       responsePromises := rs;
       joined := match joined st with
                 | None => None
                 | Some all => Some (Promise_all_react (race r) (race r'') (map race rs) all)
                 end;
       logged := match joined st with
                 | None => logged st
                 | Some all =>
                     then_formatTimings all
                       (Promise_all_react (race r) (race r'') (map race rs) all) (logged st)
                 end |}.
Proof.
  intros H. unfold deliver. rewrite H. simpl.
  destruct (joined st); reflexivity.
Qed.

Lemma replied_static (t : transport) (resp : string) (now : Z) (r : Runner) :
  launch (replied t resp now r) = launch r
  /\ forall t', start (operation_of t' (replied t resp now r)) = start (operation_of t' r).
Proof. split; [|intros t']; destruct t; try destruct t'; reflexivity. Qed.

Lemma replied_race (t : transport) (resp : string) (now : Z) (r : Runner) :
  race_joins r ->
  race_joins (replied t resp now r)
  /\ (race (replied t resp now r) = race r \/ race r = Pending).
Proof.
  destruct r as [d [p1 s1 o1] [p2 s2 o2] [p3 s3 o3] rc].
  unfold race_joins, replied, outcomes. intros Hj.
  destruct t; simpl in *;
    destruct (negb (resp =? d)%string), o1, o2, o3, rc as [|[[a b] c]|e];
    simpl in *; split; auto; try congruence; try tauto.
Qed.

Lemma replied_outcome_other (t t' : transport) (resp : string) (now : Z) (r : Runner) :
  t' <> t ->
  operation_of t' (replied t resp now r) = operation_of t' r.
Proof. intros Hne. destruct t, t'; try congruence; reflexivity. Qed.

Lemma replied_outcome (t : transport) (resp : string) (now : Z) (r : Runner) :
  outcome (operation_of t (replied t resp now r))
  = match outcome (operation_of t r) with
    | Pending =>
        if String.eqb resp (data r) then Resolved (now - start (operation_of t r))
        else Rejected (wrong_response t)
    | over => over
    end.
Proof.
  destruct t; simpl;
    match goal with |- context [outcome ?op] => destruct (outcome op) end;
    destruct (resp =? data r)%string; reflexivity.
Qed.

Lemma replied_port (t t' : transport) (resp : string) (now : Z) (r : Runner) :
  port (operation_of t' (replied t resp now r)) = port (operation_of t' r).
Proof. destruct t, t'; reflexivity. Qed.

Lemma replied_data (t : transport) (resp : string) (now : Z) (r : Runner) :
  data (replied t resp now r) = data r.
Proof. destruct t; reflexivity. Qed.

(** What a reply leaves as it is. *)
Lemma deliver_frame (w : World) (reply : Reply) (st : State) :
  file_reads (deliver w reply st) = file_reads st
  /\ listeners (deliver w reply st) = listeners st
  /\ map launch (responsePromises (deliver w reply st)) = map launch (responsePromises st)
  /\ (joined st = None <-> joined (deliver w reply st) = None).
Proof.
  destruct (responsePromises st !! runner reply) as [r|] eqn:Hr.
  - rewrite (deliver_Some w reply st r Hr). simpl.
    split; [reflexivity|]. split; [reflexivity|]. split.
    + change (map launch ?l) with (launch <$> l).
      rewrite list_fmap_insert. apply list_insert_id.
      rewrite list_lookup_fmap, Hr. simpl. f_equal. symmetry. apply replied_static.
    + destruct (joined st); split; congruence.
  - rewrite deliver_None by assumption. tauto.
Qed.

Lemma deliver_length (w : World) (reply : Reply) (st : State) :
  length (responsePromises (deliver w reply st)) = length (responsePromises st).
Proof.
  destruct (deliver_frame w reply st) as (_ & _ & H & _).
  apply (f_equal (@length _)) in H. now rewrite !length_map in H.
Qed.

Lemma deliver_consistent (w : World) (reply : Reply) (st : State) :
  consistent st -> consistent (deliver w reply st).
Proof.
  intros [Hraces Hjoined].
  destruct (responsePromises st !! runner reply) as [r|] eqn:Hr;
    [|now rewrite deliver_None].
  rewrite (deliver_Some w reply st r Hr).
  assert (Hrj : race_joins r) by (rewrite Forall_lookup in Hraces; eauto).
  set (r'' := replied _ _ _ r).
  destruct (replied_race (via reply)
              (respond w (via reply) (port (operation_of (via reply) r)) (data r))
              (clock w (clock_reads st)) r Hrj) as [Hrj' Hstep].
  fold r'' in Hrj', Hstep.
  split; simpl.
  - now apply Forall_insert.
  - destruct (joined st) as [all|]; [|assumption].
    destruct Hjoined as [Hj Hlog].
    change (map race ?l) with (race <$> l). rewrite list_fmap_insert.
    assert (Hi : (race <$> responsePromises st) !! runner reply = Some (race r))
      by (now rewrite list_lookup_fmap, Hr).
    assert (Hj' := joins_react _ all _ _ (race r'') Hj Hi Hstep).
    split; [exact Hj'|].
    set (all' := Promise_all_react _ _ _ all) in *.
    destruct all as [|ts|e].
    + destruct all'; simpl; [assumption|reflexivity|assumption].
    + subst all'. rewrite Promise_all_react_settled by discriminate. exact Hlog.
    + subst all'. rewrite Promise_all_react_settled by discriminate. exact Hlog.
Qed.

Lemma deliver_honest (w : World) (reply : Reply) (st : State) :
  honest w st -> honest w (deliver w reply st).
Proof.
  intros Hh.
  destruct (responsePromises st !! runner reply) as [r|] eqn:Hr;
    [|now rewrite deliver_None].
  rewrite (deliver_Some w reply st r Hr). unfold honest in *. simpl.
  apply Forall_insert; [assumption|].
  rewrite Forall_lookup in Hh. specialize (Hh _ _ Hr).
  intros t. rewrite replied_port, replied_data.
  destruct (decide (t = via reply)) as [->|Hne].
  - rewrite replied_outcome. specialize (Hh (via reply)).
    destruct (outcome (operation_of (via reply) r)); try assumption.
    destruct (String.eqb_spec
                (respond w (via reply) (port (operation_of (via reply) r)) (data r))
                (data r)); auto.
  - rewrite replied_outcome_other by assumption. apply Hh.
Qed.

Lemma deliver_timed (w : World) (reply : Reply) (st : State) :
  (forall t p d, respond w t p d = d) ->
  timed w st -> timed w (deliver w reply st).
Proof.
  intros Hecho Ht.
  destruct (responsePromises st !! runner reply) as [r|] eqn:Hr;
    [|now rewrite deliver_None].
  rewrite (deliver_Some w reply st r Hr). unfold timed in *. simpl.
  assert (Hr0 := Ht). rewrite Forall_lookup in Hr0. specialize (Hr0 _ _ Hr).
  apply Forall_insert.
  - eapply Forall_impl; [exact Ht|]. intros r0 H0 t. destruct (H0 t) as [Hs Ho].
    split; [|exact Ho]. intros k Hk. apply Hs. lia.
  - intros t. rewrite Hecho. split.
    + intros k Hk. rewrite (proj2 (replied_static _ _ _ _)). apply (Hr0 t). lia.
    + destruct (decide (t = via reply)) as [->|Hne].
      * rewrite replied_outcome. destruct (Hr0 (via reply)) as [Hs Ho].
        destruct (outcome (operation_of (via reply) r)); try assumption.
        rewrite String.eqb_refl. specialize (Hs (clock_reads st)). lia.
      * rewrite replied_outcome_other by assumption. apply Hr0.
Qed.

Lemma deliver_settled_kept (w : World) (reply : Reply) (st : State) (i : nat) (t : transport) :
  settled i t st -> settled i t (deliver w reply st).
Proof.
  intros (r & Hi & Hr).
  destruct (responsePromises st !! runner reply) as [r0|] eqn:Hr0;
    [|rewrite deliver_None by assumption; exists r; auto].
  rewrite (deliver_Some w reply st r0 Hr0). unfold settled. simpl.
  destruct (decide (runner reply = i)) as [Heq|Hne].
  - rewrite Heq in *. assert (r0 = r) by congruence. subst r0.
    eexists. split; [apply list_lookup_insert_eq; now apply lookup_lt_Some in Hi|].
    destruct (decide (t = via reply)) as [->|Hne].
    + rewrite replied_outcome. now destruct (outcome (operation_of (via reply) r)).
    + now rewrite replied_outcome_other.
  - exists r. split; [|assumption]. now rewrite list_lookup_insert_ne.
Qed.

Lemma deliver_settles (w : World) (reply : Reply) (st : State) :
  (runner reply < length (responsePromises st))%nat ->
  settled (runner reply) (via reply) (deliver w reply st).
Proof.
  intros Hlt. destruct (lookup_lt_is_Some_2 _ _ Hlt) as [r Hr].
  rewrite (deliver_Some w reply st r Hr). unfold settled. simpl.
  eexists. split; [now apply list_lookup_insert_eq|].
  rewrite replied_outcome.
  destruct (outcome (operation_of (via reply) r)); try discriminate.
  now destruct (String.eqb _ _).
Qed.

(** ** A launch *)

Lemma runAsClient_eq (w : World) (c : Config) (quicPort httpPort wsPort : Z) (st : State) :
  runAsClient w c quicPort httpPort wsPort st
  = {| clock_reads := S (S (S (clock_reads st)));
       file_reads := S (file_reads st);
       listeners := listeners st;
       responsePromises :=
         responsePromises st ++
           [{| data := fixture w (String.append (DATA_SIZE c) "kb") (file_reads st);
               quicPromise := {| port := quicPort; start := clock w (clock_reads st);
                                 outcome := Pending |};
               httpPromise := {| port := httpPort; start := clock w (S (clock_reads st));
                                 outcome := Pending |};
               wsPromise := {| port := wsPort; start := clock w (S (S (clock_reads st)));
                               outcome := Pending |};
               race := Pending |}];
       joined := joined st;
       logged := logged st |}.
Proof. reflexivity. Qed.

Lemma runAsClient_consistent (w : World) (c : Config) (p q r : Z) (st : State) :
  joined st = None -> consistent st -> consistent (runAsClient w c p q r st).
Proof.
  intros Hnone [Hraces Hjoined]. rewrite runAsClient_eq. split; simpl.
  - apply Forall_app. split; [assumption|]. repeat constructor.
  - now rewrite Hnone in *.
Qed.

Lemma runAsClient_honest (w : World) (c : Config) (p q r : Z) (st : State) :
  honest w st -> honest w (runAsClient w c p q r st).
Proof.
  intros Hh. rewrite runAsClient_eq. unfold honest in *. simpl.
  apply Forall_app. split; [assumption|].
  constructor; [|constructor]. now intros [].
Qed.

Lemma runAsClient_timed (w : World) (c : Config) (p q r : Z) (st : State) :
  (forall j k, (j <= k)%nat -> clock w j <= clock w k) ->
  timed w st -> timed w (runAsClient w c p q r st).
Proof.
  intros Hmono Ht. rewrite runAsClient_eq. unfold timed in *. simpl.
  apply Forall_app. split.
  - eapply Forall_impl; [exact Ht|]. intros r0 H0 t. destruct (H0 t) as [Hs Ho].
    split; [|exact Ho]. intros k Hk. apply Hs. lia.
  - constructor; [|constructor].
    intros []; simpl; (split; [|exact I]); intros k Hk; apply Hmono; lia.
Qed.

Lemma runAsClient_settled (w : World) (c : Config) (p q r : Z) (st : State)
    (i : nat) (t : transport) :
  settled i t st -> settled i t (runAsClient w c p q r st).
Proof.
  intros (r0 & Hi & Hr). rewrite runAsClient_eq. exists r0. simpl.
  split; [now apply lookup_app_l_Some|assumption].
Qed.

(** ** The join *)

Lemma join_consistent (st : State) :
  Forall race_joins (responsePromises st) -> consistent (join st).
Proof.
  intros Hraces. split; [exact Hraces|]. simpl. split.
  - apply Promise_all_joins.
  - now destruct (Promise_all _).
Qed.

(** ** Several replies *)

Lemma deliver_all_invariant (P : State -> Prop) (w : World) :
  (forall reply st, P st -> P (deliver w reply st)) ->
  forall replies st, P st -> P (deliver_all w replies st).
Proof.
  intros Hstep replies. unfold deliver_all.
  induction replies as [|reply replies IH]; intros st HP; simpl; auto.
Qed.

Lemma deliver_all_frame (w : World) (replies : list Reply) (st : State) :
  file_reads (deliver_all w replies st) = file_reads st
  /\ listeners (deliver_all w replies st) = listeners st
  /\ map launch (responsePromises (deliver_all w replies st))
     = map launch (responsePromises st)
  /\ (joined st = None <-> joined (deliver_all w replies st) = None).
Proof.
  unfold deliver_all. revert st.
  induction replies as [|reply replies IH]; intros st; simpl; [tauto|].
  destruct (IH (deliver w reply st)) as (H1 & H2 & H3 & H4).
  destruct (deliver_frame w reply st) as (F1 & F2 & F3 & F4).
  rewrite H1, H2, H3, <- H4. auto.
Qed.

Lemma deliver_all_length (w : World) (replies : list Reply) (st : State) :
  length (responsePromises (deliver_all w replies st)) = length (responsePromises st).
Proof.
  destruct (deliver_all_frame w replies st) as (_ & _ & H & _).
  apply (f_equal (@length _)) in H. now rewrite !length_map in H.
Qed.

Lemma deliver_all_app (w : World) (front back : list Reply) (st : State) :
  deliver_all w (front ++ back) st = deliver_all w back (deliver_all w front st).
Proof. unfold deliver_all. apply fold_left_app. Qed.

Lemma deliver_all_settles (w : World) (replies : list Reply) (st : State)
    (i : nat) (t : transport) :
  In {| runner := i; via := t |} replies ->
  (i < length (responsePromises st))%nat ->
  settled i t (deliver_all w replies st).
Proof.
  intros Hin Hlt. apply in_split in Hin as (front & back & ->).
  rewrite deliver_all_app.
  change (deliver_all w ({| runner := i; via := t |} :: back) (deliver_all w front st))
    with (deliver_all w back (deliver w {| runner := i; via := t |} (deliver_all w front st))).
  apply deliver_all_invariant; [intros; now apply deliver_settled_kept|].
  apply (deliver_settles w {| runner := i; via := t |}). simpl.
  now rewrite deliver_all_length.
Qed.

(** ** The loop of [main] *)

Lemma main_loop_client_invariant (P : State -> Prop) (w : World) (c : Config) :
  (forall p q r st, P st -> P (runAsClient w c p q r st)) ->
  (forall reply st, P st -> P (deliver w reply st)) ->
  forall fuel p sleeps st st',
    P st -> main_loop w c true fuel p sleeps st = Some st' -> P st'.
Proof.
  intros Hlaunch Hreply fuel.
  induction fuel as [|fuel IH]; intros p sleeps st st' HP Hrun; simpl in Hrun;
    destruct (p <? START_PORT c + NUM_SPINUPS c); try congruence.
  eapply IH; [|exact Hrun].
  apply deliver_all_invariant; auto.
Qed.

(** With fuel for every turn the loop ends, and it has made the calls of
    [launches], whatever replies came in between. *)
Lemma main_loop_client_launches (w : World) (c : Config) :
  forall fuel p sleeps st,
    (Z.to_nat (START_PORT c + NUM_SPINUPS c - p) <= fuel)%nat ->
    exists st',
      main_loop w c true fuel p sleeps st = Some st'
      /\ map launch (responsePromises st')
         = map launch (responsePromises st)
           ++ launches w c (Z.to_nat (START_PORT c + NUM_SPINUPS c - p)) p (file_reads st)
      /\ file_reads st'
         = (file_reads st + Z.to_nat (START_PORT c + NUM_SPINUPS c - p))%nat
      /\ listeners st' = listeners st.
Proof.
  induction fuel as [|fuel IH]; intros p sleeps st Hfuel; simpl;
    destruct (Z.ltb_spec p (START_PORT c + NUM_SPINUPS c)) as [Hlt|Hge].
  - lia.
  - exists st. replace (Z.to_nat _) with 0%nat by lia. simpl.
    now rewrite app_nil_r, Nat.add_0_r.
  - set (st1 := runAsClient w c p (p + NUM_SPINUPS c) (p + NUM_SPINUPS c * 2) st).
    set (st2 := deliver_all w (during_sleep w sleeps) st1).
    destruct (IH (p + 1) (S sleeps) st2) as (st' & Hrun & Hl & Hf & Hb); [lia|].
    destruct (deliver_all_frame w (during_sleep w sleeps) st1) as (F1 & F2 & F3 & _).
    fold st2 in F1, F2, F3.
    exists st'. split; [exact Hrun|].
    replace (Z.to_nat (START_PORT c + NUM_SPINUPS c - p))
      with (S (Z.to_nat (START_PORT c + NUM_SPINUPS c - (p + 1)))) by lia.
    rewrite Hl, Hf, Hb, F1, F2, F3. subst st1. rewrite runAsClient_eq. simpl.
    rewrite map_app, <- app_assoc. simpl.
    split; [reflexivity|]. split; [lia|reflexivity].
  - exists st. replace (Z.to_nat _) with 0%nat by lia. simpl.
    now rewrite app_nil_r, Nat.add_0_r.
Qed.

Lemma main_loop_server_listeners (w : World) (c : Config) :
  forall fuel p sleeps st,
    (Z.to_nat (START_PORT c + NUM_SPINUPS c - p) <= fuel)%nat ->
    exists st',
      main_loop w c false fuel p sleeps st = Some st'
      /\ listeners st'
         = listeners st ++ bindings c (Z.to_nat (START_PORT c + NUM_SPINUPS c - p)) p
      /\ file_reads st' = file_reads st
      /\ responsePromises st' = responsePromises st.
Proof.
  induction fuel as [|fuel IH]; intros p sleeps st Hfuel; simpl;
    destruct (Z.ltb_spec p (START_PORT c + NUM_SPINUPS c)) as [Hlt|Hge].
  - lia.
  - exists st. replace (Z.to_nat _) with 0%nat by lia. simpl. now rewrite app_nil_r.
  - destruct (IH (p + 1) sleeps
                (runAsServer p (p + NUM_SPINUPS c) (p + NUM_SPINUPS c * 2) st))
      as (st' & Hrun & Hl & Hf & Hr); [lia|].
    exists st'. split; [exact Hrun|].
    replace (Z.to_nat (START_PORT c + NUM_SPINUPS c - p))
      with (S (Z.to_nat (START_PORT c + NUM_SPINUPS c - (p + 1)))) by lia.
    rewrite Hl, Hf, Hr. simpl. rewrite <- app_assoc. auto.
  - exists st. replace (Z.to_nat _) with 0%nat by lia. simpl. now rewrite app_nil_r.
Qed.

(** A reply that arrives during a sleep of the loop, for a runner that is
    there by then, settles its operation for the rest of the loop. *)
Lemma main_loop_settles (w : World) (c : Config) (i : nat) (t : transport) :
  forall fuel p sleeps st st' k,
    sleeps = length (responsePromises st) ->
    main_loop w c true fuel p sleeps st = Some st' ->
    (sleeps <= k < sleeps + Z.to_nat (START_PORT c + NUM_SPINUPS c - p))%nat ->
    (i <= k)%nat ->
    In {| runner := i; via := t |} (during_sleep w k) ->
    settled i t st'.
Proof.
  induction fuel as [|fuel IH]; intros p sleeps st st' k Hlen Hrun Hk Hi Hin;
    simpl in Hrun;
    destruct (Z.ltb_spec p (START_PORT c + NUM_SPINUPS c)) as [Hlt|Hge];
    try congruence; try lia.
  set (st1 := runAsClient w c p (p + NUM_SPINUPS c) (p + NUM_SPINUPS c * 2) st) in *.
  set (st2 := deliver_all w (during_sleep w sleeps) st1) in *.
  assert (Hlen1 : length (responsePromises st1) = S sleeps).
  { subst st1. rewrite runAsClient_eq. simpl. rewrite length_app. simpl. lia. }
  assert (Hlen2 : length (responsePromises st2) = S sleeps).
  { subst st2. now rewrite deliver_all_length. }
  destruct (decide (k = sleeps)) as [->|Hne].
  - apply (main_loop_client_invariant (settled i t) w c
             (fun p q r st H => runAsClient_settled w c p q r st i t H)
             (fun reply st H => deliver_settled_kept w reply st i t H)
             fuel (p + 1) (S sleeps) st2 st'); [|exact Hrun].
    apply deliver_all_settles; [assumption|lia].
  - eapply (IH (p + 1) (S sleeps) st2 st' k); try eassumption; try lia.
Qed.

(** Fuel beyond what the loop needs changes nothing. *)
Lemma main_loop_fuel (w : World) (c : Config) (isClient : bool) :
  forall fuel fuel' p sleeps st st',
    (fuel <= fuel')%nat ->
    main_loop w c isClient fuel p sleeps st = Some st' ->
    main_loop w c isClient fuel' p sleeps st = Some st'.
Proof.
  induction fuel as [|fuel IH]; intros fuel' p sleeps st st' Hle Hrun.
  - simpl in Hrun. destruct fuel'; simpl;
      destruct (p <? START_PORT c + NUM_SPINUPS c); congruence.
  - destruct fuel' as [|fuel']; [lia|]. simpl in *.
    destruct (p <? START_PORT c + NUM_SPINUPS c); [|exact Hrun].
    destruct isClient; apply IH; try lia; exact Hrun.
Qed.

Lemma launches_length (w : World) (c : Config) (n : nat) (p : Z) (k : nat) :
  length (launches w c n p k) = n.
Proof. revert p k. induction n as [|n IH]; intros p k; simpl; [reflexivity|]. now rewrite IH. Qed.

Lemma launches_lookup (w : World) (c : Config) (n : nat) (p : Z) (k i : nat) :
  (i < n)%nat ->
  launches w c n p k !! i
  = Some (fixture w (String.append (DATA_SIZE c) "kb") (k + i),
          (p + Z.of_nat i,
           p + Z.of_nat i + NUM_SPINUPS c,
           p + Z.of_nat i + NUM_SPINUPS c * 2)).
Proof.
  revert p k i. induction n as [|n IH]; intros p k i Hi; [lia|].
  destruct i as [|i]; simpl.
  - rewrite Nat.add_0_r, Z.add_0_r. reflexivity.
  - rewrite IH by lia.
    replace (k + S i)%nat with (S k + i)%nat by lia.
    replace (p + Z.of_nat (S i)) with (p + 1 + Z.of_nat i) by lia.
    reflexivity.
Qed.

(** ** The whole run in client mode *)

Lemma run_client (w : World) (c : Config) :
  exists st : State,
    run w c true (turns c) = Some st
    /\ map launch (responsePromises st) = launches w c (turns c) 8000 0
    /\ file_reads st = turns c
    /\ listeners st = []
    /\ consistent st
    /\ honest w st
    /\ joined st <> None
    /\ ((forall t p d, respond w t p d = d) ->
        (forall j k, (j <= k)%nat -> clock w j <= clock w k) ->
        timed w st)
    /\ (forall i t, (i < turns c)%nat -> arrives w (turns c) i t -> settled i t st).
Proof.
  destruct (main_loop_client_launches w c (turns c) 8000 0 initial) as (st0 & Hloop & Hl & Hf & Hb);
    [unfold turns; lia|].
  fold (turns c) in Hl, Hf. simpl in Hl, Hf, Hb.
  assert (Hinv : joined st0 = None /\ consistent st0).
  { apply (main_loop_client_invariant (fun st => joined st = None /\ consistent st) w c)
      with (fuel := turns c) (p := 8000) (sleeps := 0%nat) (st := initial).
    - intros p q r st [Hn Hc]. split; [now rewrite runAsClient_eq|].
      now apply runAsClient_consistent.
    - intros reply st [Hn Hc]. split; [now apply deliver_frame|].
      now apply deliver_consistent.
    - split; [reflexivity|]. split; [constructor|reflexivity].
    - exact Hloop. }
  assert (Hhon : honest w st0).
  { apply (main_loop_client_invariant (honest w) w c)
      with (fuel := turns c) (p := 8000) (sleeps := 0%nat) (st := initial).
    - intros. now apply runAsClient_honest.
    - intros. now apply deliver_honest.
    - constructor.
    - exact Hloop. }
  set (st1 := join st0).
  destruct (deliver_all_frame w (afterwards w) st1) as (F1 & F2 & F3 & F4).
  exists (deliver_all w (afterwards w) st1).
  split; [unfold run, main; now rewrite Hloop|].
  split; [now rewrite F3|]. split; [now rewrite F1|]. split; [now rewrite F2|].
  split; [|split; [|split; [|split]]].
  - apply deliver_all_invariant; [intros; now apply deliver_consistent|].
    apply join_consistent, Hinv.
  - apply deliver_all_invariant; [intros; now apply deliver_honest|]. exact Hhon.
  - rewrite <- F4. discriminate.
  - intros Hecho Hmono.
    apply deliver_all_invariant; [intros; now apply deliver_timed|].
    change (timed w st0).
    apply (main_loop_client_invariant (timed w) w c)
      with (fuel := turns c) (p := 8000) (sleeps := 0%nat) (st := initial).
    + intros. now apply runAsClient_timed.
    + intros. now apply deliver_timed.
    + constructor.
    + exact Hloop.
  - intros i t Hi [(k & Hk & Hin)|Hin].
    + apply deliver_all_invariant; [intros; now apply deliver_settled_kept|].
      change (settled i t st0).
      apply (main_loop_settles w c i t (turns c) 8000 0%nat initial st0 k);
        try assumption; try reflexivity; try lia.
      unfold turns in Hk. lia.
    + apply deliver_all_settles; [assumption|].
      change (i < length (responsePromises st0))%nat.
      rewrite <- (length_map launch), Hl, launches_length. exact Hi.
Qed.

(** ** The whole run in server mode *)

Lemma deliver_all_no_runner (w : World) (replies : list Reply) (st : State) :
  responsePromises st = [] -> deliver_all w replies st = st.
Proof.
  intros Hnone. unfold deliver_all.
  induction replies as [|reply replies IH]; [reflexivity|]. simpl.
  rewrite deliver_None; [exact IH|]. now rewrite Hnone.
Qed.

Lemma run_server (w : World) (c : Config) :
  exists st : State,
    run w c false (turns c) = Some st
    /\ listeners st = bindings c (turns c) 8000
    /\ file_reads st = 0%nat
    /\ responsePromises st = [].
Proof.
  destruct (main_loop_server_listeners w c (turns c) 8000 0 initial)
    as (st0 & Hloop & Hl & Hf & Hr); [unfold turns; lia|].
  exists st0. unfold run, main. rewrite Hloop.
  rewrite deliver_all_no_runner by assumption. auto.
Qed.

(** The ports of the listeners of [n] turns are the [q + j * NUM_SPINUPS]
    with [q] a value of the counter and [j] one of 0, 1, 2. *)
Lemma bindings_ports (c : Config) (n : nat) (p x : Z) :
  In x (map snd (bindings c n p)) ->
  exists q j, p <= q < p + Z.of_nat n /\ 0 <= j <= 2 /\ x = q + j * NUM_SPINUPS c.
Proof.
  revert p. induction n as [|n IH]; intros p Hin; [destruct Hin|].
  simpl in Hin. destruct Hin as [<-|[<-|[<-|Hin]]].
  - exists p, 0. lia.
  - exists p, 1. lia.
  - exists p, 2. lia.
  - destruct (IH (p + 1) Hin) as (q & j & Hq & Hj & ->). exists q, j. lia.
Qed.

(** From the default start port the loop gives every server a port of its
    own. *)
Lemma default_ports_distinct (c : Config) :
  START_PORT c = 8000 ->
  0 < NUM_SPINUPS c ->
  turns c = Z.to_nat (NUM_SPINUPS c)
  /\ NoDup (map snd (bindings c (turns c) 8000)).
Proof.
  intros Hstart Hpos.
  assert (Hturns : turns c = Z.to_nat (NUM_SPINUPS c)) by (unfold turns; f_equal; lia).
  split; [exact Hturns|]. rewrite Hturns.
  assert (Hgen : forall n p, Z.of_nat n <= NUM_SPINUPS c ->
                   NoDup (map snd (bindings c n p))).
  { induction n as [|n IH]; intros p Hn; [constructor|].
    simpl. assert (Hrest := IH (p + 1) ltac:(lia)).
    assert (Hout : forall j, 0 <= j <= 2 ->
              ~ In (p + j * NUM_SPINUPS c) (map snd (bindings c n (p + 1)))).
    { intros j Hj Hin. apply bindings_ports in Hin as (q & j' & Hq & Hj' & Heq).
      assert (Hc : j = 0 \/ j = 1 \/ j = 2) by lia.
      assert (Hc' : j' = 0 \/ j' = 1 \/ j' = 2) by lia.
      destruct Hc as [ -> | [ -> | -> ] ], Hc' as [ -> | [ -> | -> ] ]; lia. }
    constructor; [|constructor; [|constructor; [|exact Hrest]]];
      rewrite list_elem_of_In; simpl.
    - intros [Heq|[Heq|Hin]]; [lia|lia|].
      apply (Hout 0); [lia|]. now rewrite Z.mul_0_l, Z.add_0_r.
    - intros [Heq|Hin]; [lia|].
      apply (Hout 1); [lia|]. now rewrite Z.mul_1_l.
    - intros Hin. apply (Hout 2); [lia|]. now rewrite Z.mul_comm. }
  apply Hgen. lia.
Qed.

(** C1. The ports of the instance of index [i] are meant to be
    [basePort + i], [basePort + i + instanceCount] and
    [basePort + i + 2 * instanceCount], all distinct.  The loop of [main]
    starts its counter at the literal 8000, not at [START_PORT]: run with
    [START_PORT=8001] and one instance, it makes two turns, in client as
    in server mode, with the ports 8000, 8001, 8002 and 8001, 8002, 8003,
    so that two servers are asked to listen on 8001 and two on 8002. *)
Theorem ports_collide_off_the_default_start_port (w : World) :
  let c := configure {| env_NUM_SPINUPS := Some 1; env_START_PORT := Some 8001;
                        env_ADDRESS := None; env_DATA_SIZE := None |} in
  NUM_SPINUPS c = 1
  /\ START_PORT c = 8001
  /\ (exists st, run w c false (turns c) = Some st
                 /\ listeners st = [(QUIC, 8000); (HTTP, 8001); (WS, 8002);
                                    (QUIC, 8001); (HTTP, 8002); (WS, 8003)]
                 /\ ~ NoDup (map snd (listeners st)))
  /\ (exists st, run w c true (turns c) = Some st
                 /\ map ports_of (responsePromises st)
                    = [(8000, 8001, 8002); (8001, 8002, 8003)]).
Proof.
  intros c. split; [reflexivity|]. split; [reflexivity|]. split.
  - destruct (run_server w c) as (st & Hrun & Hl & _).
    exists st. split; [exact Hrun|]. rewrite Hl. split; [reflexivity|].
    simpl. intros Hnd.
    apply NoDup_cons in Hnd as [_ Hnd].
    apply NoDup_cons in Hnd as [Hin _].
    apply Hin. rewrite list_elem_of_In. simpl. tauto.
  - destruct (run_client w c) as (st & Hrun & Hl & _).
    exists st. split; [exact Hrun|].
    apply (f_equal (map snd)) in Hl. rewrite map_map in Hl. exact Hl.
Qed.

(** ** The samples of a run *)

Lemma all_resolved {A} (ps : list (promise A)) :
  (forall i p, ps !! i = Some p -> exists v, p = Resolved v) ->
  exists vs, ps = map Resolved vs.
Proof.
  induction ps as [|p ps IH]; intros Hall.
  - now exists [].
  - destruct (Hall 0%nat p eq_refl) as [v ->].
    destruct IH as [vs ->]; [intros i q Hq; apply (Hall (S i) q Hq)|].
    now exists (v :: vs).
Qed.

Lemma first_reason_resolved {A} (vs : list A) :
  first_reason (map Resolved vs) = None.
Proof. induction vs; simpl; auto. Qed.

Lemma joins_resolved {A} (vs : list A) (all : promise (list A)) :
  joins (map Resolved vs) all -> all = Resolved vs.
Proof.
  assert (Hv : values_of (map Resolved vs) = Some vs) by now apply values_of_Some.
  destruct all as [|vs'|e]; simpl.
  - intros [H _]. congruence.
  - intros H. congruence.
  - intros H. destruct H. apply first_reason_resolved.
Qed.

Lemma race_joins_resolved (r : Runner) (a b d : Z) :
  race_joins r ->
  outcomes r = [Resolved a; Resolved b; Resolved d] ->
  race r = Resolved (a, b, d).
Proof.
  unfold race_joins. intros Hj Ho. rewrite Ho in Hj.
  destruct (race r) as [|[[a' b'] d']|e]; simpl in Hj.
  - destruct Hj. discriminate.
  - injection Hj as <- <- <-. reflexivity.
  - now destruct Hj.
Qed.

(** C3, as the specification has it: the payload is loaded once for the
    process and every instance sends that one value.  It fails: with two
    instances the payload file is read twice, and when it is rewritten in
    between, the two instances send different payloads. *)
Lemma payload_loaded_once_counterexample :
  exists st : State,
    run rewritten (defaults 2 8000) true (turns (defaults 2 8000)) = Some st
    /\ file_reads st = 2%nat
    /\ file_reads st <> 1%nat
    /\ map data (responsePromises st) = ["ping"; "pong"]%string.
Proof.
  eexists. split; [vm_compute; reflexivity|].
  split; [reflexivity|]. split; [discriminate|reflexivity].
Qed.

(** C3, amended.  The payload is read once by every call of [runAsClient],
    that is once for each Race Runner, the [i]-th reading of the run giving
    the payload of the [i]-th runner (none is read in server mode); the
    runners all send the same payload when every reading of the file gives
    the same contents. *)
Theorem payload_read_once_per_runner (w : World) (c : Config) :
  (exists st, run w c false (turns c) = Some st /\ file_reads st = 0%nat)
  /\ exists st,
       run w c true (turns c) = Some st
       /\ file_reads st = length (responsePromises st)
       /\ (forall i r, responsePromises st !! i = Some r ->
             data r = fixture w (String.append (DATA_SIZE c) "kb") i)
       /\ ((forall j k, fixture w (String.append (DATA_SIZE c) "kb") j
                        = fixture w (String.append (DATA_SIZE c) "kb") k) ->
           forall r r', In r (responsePromises st) -> In r' (responsePromises st) ->
             data r = data r').
Proof.
  split.
  - destruct (run_server w c) as (st & Hrun & _ & Hf & _). eauto.
  - destruct (run_client w c) as (st & Hrun & Hl & Hf & _).
    assert (Hlen : length (responsePromises st) = turns c).
    { rewrite <- (length_map launch), Hl. apply launches_length. }
    assert (Hdata : forall i r, responsePromises st !! i = Some r ->
              data r = fixture w (String.append (DATA_SIZE c) "kb") i).
    { intros i r Hr.
      assert (Hi : (i < turns c)%nat) by (rewrite <- Hlen; eapply lookup_lt_Some, Hr).
      assert (Hp : map launch (responsePromises st) !! i = Some (launch r)).
      { change (map launch ?x) with (launch <$> x). now rewrite list_lookup_fmap, Hr. }
      rewrite Hl, launches_lookup in Hp by assumption.
      unfold launch in Hp. simpl in Hp. congruence. }
    exists st. split; [exact Hrun|]. split; [congruence|]. split; [exact Hdata|].
    intros Hsame r r' Hr Hr'.
    apply list_elem_of_In, list_elem_of_lookup in Hr as [i Hi].
    apply list_elem_of_In, list_elem_of_lookup in Hr' as [i' Hi'].
    rewrite (Hdata i r Hi), (Hdata i' r' Hi'). apply Hsame.
Qed.

Lemma payload_read_once_per_runner_witness :
  (exists st, run echoing (defaults 2 8000) false (turns (defaults 2 8000)) = Some st
              /\ file_reads st = 0%nat)
  /\ exists st,
       run echoing (defaults 2 8000) true (turns (defaults 2 8000)) = Some st
       /\ file_reads st = length (responsePromises st)
       /\ (forall i r, responsePromises st !! i = Some r ->
             data r = fixture echoing (String.append (DATA_SIZE (defaults 2 8000)) "kb") i)
       /\ (forall r r', In r (responsePromises st) -> In r' (responsePromises st) ->
             data r = data r').
Proof.
  destruct (payload_read_once_per_runner echoing (defaults 2 8000))
    as [Hserver (st & Hrun & Hreads & Hdata & Hsame)].
  split; [exact Hserver|]. exists st.
  split; [exact Hrun|]. split; [exact Hreads|]. split; [exact Hdata|].
  apply Hsame. reflexivity.
Defined.

Lemma first_reason_Some {A} (ps : list (promise A)) (i : nat) (e : string) :
  ps !! i = Some (Rejected e) -> first_reason ps <> None.
Proof.
  intros Hi Hnone. apply first_reason_None in Hnone.
  rewrite Forall_lookup in Hnone. specialize (Hnone i _ Hi). discriminate.
Qed.

(** C6. When the reply that a transport delivers to an operation is not
    equal to the payload, the operation is rejected with the error of the
    wrong response of its transport: it has no duration.  Nothing is sent
    again (the operations of the run are those the loop has launched, one
    for each transport and runner), the Race Runner is rejected, so is the
    [Promise.all] of the run, and [_formatTimings] is never called: no
    duration of that run enters any statistics. *)
Theorem wrong_reply_rejects_and_is_no_sample
    (w : World) (c : Config) (i : nat) (t : transport) (r : Runner) (st : State) :
  run w c true (turns c) = Some st ->
  responsePromises st !! i = Some r ->
  arrives w (turns c) i t ->
  respond w t (port (operation_of t r)) (data r) <> data r ->
  outcome (operation_of t r) = Rejected (wrong_response t)
  /\ (exists e, race r = Rejected e)
  /\ (exists e, joined st = Some (Rejected e))
  /\ logged st = None
  /\ map launch (responsePromises st) = launches w c (turns c) 8000 0.
Proof.
  intros Hrun Hr Harrive Hwrong.
  destruct (run_client w c)
    as (st' & Hrun' & Hl & _ & _ & [Hraces Hjoin] & Hhonest & Hsome & _ & Hsettled).
  assert (st' = st) by congruence. subst st'.
  assert (Hi : (i < turns c)%nat).
  { rewrite <- (launches_length w c (turns c) 8000 0), <- Hl, length_map.
    eapply lookup_lt_Some, Hr. }
  assert (Hout : outcome (operation_of t r) = Rejected (wrong_response t)).
  { destruct (Hsettled i t Hi Harrive) as (r' & Hr' & Hset).
    assert (r' = r) by congruence. subst r'.
    unfold honest in Hhonest. rewrite Forall_lookup in Hhonest.
    specialize (Hhonest i r Hr t).
    destruct (outcome (operation_of t r)) as [|v|e]; [congruence|contradiction|].
    now destruct Hhonest as [-> _]. }
  assert (Hreason : first_reason (outcomes r) <> None).
  { unfold outcomes. destruct t; simpl in Hout; rewrite Hout; simpl; try discriminate;
      repeat (match goal with |- context [reason_of ?p] => destruct (reason_of p) end);
      discriminate. }
  assert (Hrace : exists e, race r = Rejected e).
  { rewrite Forall_lookup in Hraces. specialize (Hraces i r Hr).
    unfold race_joins in Hraces.
    destruct (race r) as [|[[a b] d]|e]; [now destruct Hraces| |eauto].
    rewrite Hraces in Hreason. now destruct Hreason. }
  destruct Hrace as [e Hrace].
  assert (Hi' : map race (responsePromises st) !! i = Some (Rejected e)).
  { change (map race ?x) with (race <$> x). now rewrite list_lookup_fmap, Hr, <- Hrace. }
  destruct (joined st) as [all|]; [|congruence]. destruct Hjoin as [Hj Hlog].
  assert (Hall : exists e', all = Rejected e').
  { destruct all as [|vs|e']; simpl in Hj; [| |eauto].
    - destruct Hj as [_ Hnone]. now apply first_reason_Some in Hi'.
    - apply values_of_Some in Hj. rewrite Hj in Hi'.
      change (map Resolved ?x) with (Resolved <$> x) in Hi'.
      rewrite list_lookup_fmap in Hi'. destruct (vs !! i); discriminate. }
  destruct Hall as [e' ->].
  split; [exact Hout|]. split; [eauto|]. split; [eauto|]. split; [exact Hlog|exact Hl].
Qed.

Lemma wrong_reply_rejects_and_is_no_sample_witness :
  exists (st : State) (r : Runner),
    run garbling (defaults 2 8000) true (turns (defaults 2 8000)) = Some st
    /\ responsePromises st !! 0%nat = Some r
    /\ outcome (operation_of HTTP r) = Rejected (wrong_response HTTP)
    /\ (exists e, race r = Rejected e)
    /\ (exists e, joined st = Some (Rejected e))
    /\ logged st = None
    /\ map launch (responsePromises st)
       = launches garbling (defaults 2 8000) (turns (defaults 2 8000)) 8000 0.
Proof.
  eexists _, _. split; [vm_compute; reflexivity|]. split; [reflexivity|].
  apply (wrong_reply_rejects_and_is_no_sample garbling (defaults 2 8000) 0 HTTP).
  - vm_compute. reflexivity.
  - reflexivity.
  - left. exists 0%nat. split; [vm_compute; lia|]. simpl. tauto.
  - vm_compute. discriminate.
Defined.

(** C9. [_calculateMean] throws on the empty array, the [reduce] without
    initial value having nothing to start from, and on no other array; the
    other statistics of the empty array are undefined or thrown as well.
    [_formatTimings] throws exactly when the sample set is empty, before
    it has logged anything; a run in client mode whose loop makes no turn
    hands it the empty sample set, and ends on that exception instead of
    a report. *)
Theorem empty_sample_crashes_the_report
    (w : World) (c : Config) (timings : list TimingTriple) (h : heap) :
  START_PORT c + NUM_SPINUPS c <= 8000 ->
  _calculateMean [] = Throw (TypeError "Reduce of empty array with no initial value")
  /\ (forall nums, (exists e, _calculateMean nums = Throw e) <-> nums = [])
  /\ _calculateStdDev [] = Throw (TypeError "Reduce of empty array with no initial value")
  /\ _calculateMedian [] = None
  /\ _calculateHigh [] = None
  /\ _calculateLow [] = None
  /\ ((exists e, _formatTimings timings h = Throw e) <-> timings = [])
  /\ exists st,
       run w c true (turns c) = Some st
       /\ joined st = Some (Resolved [])
       /\ logged st
          = Some (Throw (TypeError "Reduce of empty array with no initial value")).
Proof.
  intros Hnone.
  split; [reflexivity|]. split; [|split; [reflexivity|]].
  { intros nums. split.
    - intros [e He]. destruct nums as [|x l]; [reflexivity|].
      rewrite _calculateMean_nonempty in He by discriminate. discriminate.
    - intros ->. eexists. reflexivity. }
  split; [reflexivity|]. split; [reflexivity|]. split; [reflexivity|]. split.
  - split.
    + intros [e He]. destruct timings as [|x l]; [reflexivity|].
      destruct (_formatTimings_nonempty (x :: l) h) as (loc & Hok & _); [discriminate|].
      rewrite Hok in He. discriminate.
    + intros ->. eexists. apply _formatTimings_empty.
  - assert (Hturns : turns c = 0%nat) by (unfold turns; lia).
    rewrite Hturns. unfold run, main. simpl.
    destruct (Z.ltb_spec 8000 (START_PORT c + NUM_SPINUPS c)) as [Hlt|_]; [lia|].
    eexists. split; [reflexivity|].
    rewrite deliver_all_no_runner by reflexivity. split; reflexivity.
Qed.

Lemma empty_sample_crashes_the_report_witness :
  _calculateMean [] = Throw (TypeError "Reduce of empty array with no initial value")
  /\ (forall nums, (exists e, _calculateMean nums = Throw e) <-> nums = [])
  /\ _calculateStdDev [] = Throw (TypeError "Reduce of empty array with no initial value")
  /\ _calculateMedian [] = None
  /\ _calculateHigh [] = None
  /\ _calculateLow [] = None
  /\ ((exists e, _formatTimings [] [] = Throw e) <-> @nil TimingTriple = [])
  /\ exists st,
       run echoing (defaults 1 7000) true (turns (defaults 1 7000)) = Some st
       /\ joined st = Some (Resolved [])
       /\ logged st
          = Some (Throw (TypeError "Reduce of empty array with no initial value")).
Proof.
  apply (empty_sample_crashes_the_report echoing (defaults 1 7000) [] []).
  vm_compute. discriminate.
Defined.

(** * The rest of the program *)

(** ** The tail samples *)

Lemma _getLowFive_firstn (nums : list Z) : _getLowFive nums = firstn 5 nums.
Proof.
  unfold _getLowFive, slice.
  change (0 <? 0) with false. change (5 <? 0) with false. cbv beta iota zeta.
  rewrite (Z.min_l 0) by lia. rewrite Z.sub_0_r. change (Z.to_nat 0) with 0%nat.
  rewrite skipn_O.
  destruct (Z.min_spec 5 (Z.of_nat (length nums))) as [[Hlt ->]|[Hge ->]].
  - reflexivity.
  - rewrite Nat2Z.id. rewrite firstn_all. symmetry. apply firstn_all2. lia.
Qed.

Lemma _getHighFive_skipn (nums : list Z) :
  _getHighFive nums = skipn (length nums - 5) nums.
Proof.
  unfold _getHighFive, slice. change (-5 <? 0) with true. cbv beta iota zeta.
  replace (Z.to_nat (Z.max (Z.of_nat (length nums) + -5) 0)) with (length nums - 5)%nat by lia.
  apply firstn_all2. rewrite length_skipn. lia.
Qed.

Lemma tails_ends (nums : list Z) :
  length (_getLowFive nums) = Nat.min 5 (length nums)
  /\ length (_getHighFive nums) = Nat.min 5 (length nums)
  /\ _getLowFive nums ++ skipn 5 nums = nums
  /\ firstn (length nums - 5) nums ++ _getHighFive nums = nums.
Proof.
  rewrite _getLowFive_firstn, _getHighFive_skipn.
  split; [apply length_firstn|]. split; [rewrite length_skipn; lia|].
  split; apply firstn_skipn.
Qed.

(** X1. The bottom five are the first five elements of the array and the
    top five its last five, or the whole array when it has fewer: both
    have min(5, n) elements and are the two ends of the array. *)
Theorem tails_are_the_ends (nums : list Z) :
  length (_getLowFive nums) = Nat.min 5 (length nums)
  /\ length (_getHighFive nums) = Nat.min 5 (length nums)
  /\ _getLowFive nums ++ skipn 5 nums = nums
  /\ firstn (length nums - 5) nums ++ _getHighFive nums = nums.
Proof. apply tails_ends. Qed.

(** ** The comparator *)

(** X2. On integers the comparator of [_sort] always answers a number, so
    its missing [else] is never reached; the number is -1, 0 or 1 as [a]
    is below, equal to or above [b], and swapping the arguments negates
    it. *)
Theorem compareFn_consistent (a b : Z) :
  exists z : Z,
    compareFn a b = Some z
    /\ compareFn b a = Some (- z)
    /\ (z = -1 <-> a < b) /\ (z = 0 <-> a = b) /\ (z = 1 <-> a > b)
    /\ (z = -1 \/ z = 0 \/ z = 1).
Proof.
  unfold compareFn.
  destruct (Z.ltb_spec a b) as [Hab|Hab].
  - exists (-1). destruct (Z.ltb_spec b a); [lia|].
    destruct (Z.gtb_spec b a); [|lia]. repeat split; intros; lia || auto.
  - destruct (Z.gtb_spec a b) as [Hgt|Hle].
    + exists 1. destruct (Z.ltb_spec b a); [|lia]. repeat split; intros; lia || auto.
    + exists 0. assert (a = b) by lia. subst b.
      rewrite Z.eqb_refl, Z.ltb_irrefl.
      destruct (Z.gtb_spec a a); [lia|]. repeat split; intros; lia || auto.
Qed.

(** ** Sorting again *)




(** ** The statistics at the edges *)

(** X4. The median, the high and the low are [undefined] exactly for the
    empty array, and otherwise one of its elements; the variance is [NaN]
    exactly for the empty array, and otherwise a number that is not
    negative. *)
Theorem statistics_defined_when_nonempty (mean : Q) (nums : list Z) :
  (_calculateMedian nums = None <-> nums = [])
  /\ (_calculateHigh nums = None <-> nums = [])
  /\ (_calculateLow nums = None <-> nums = [])
  /\ (forall m, _calculateMedian nums = Some m -> In m nums)
  /\ (forall m, _calculateHigh nums = Some m -> In m nums)
  /\ (forall m, _calculateLow nums = Some m -> In m nums)
  /\ (_calculateVariance (Num mean) nums = NaN <-> nums = [])
  /\ (nums = [] \/ exists v, _calculateVariance (Num mean) nums = Num v /\ (0 <= v)%Q).
Proof.
  rewrite _calculateMedian_lookup, _calculateHigh_last, _calculateLow_head.
  assert (Hvar : nums <> [] ->
            exists v, _calculateVariance (Num mean) nums = Num v /\ (0 <= v)%Q).
  { intros Hne. destruct (_calculateVariance_nonempty mean nums Hne) as (v & Hv & Hq).
    exists v. split; [exact Hv|]. rewrite Hq. apply Qle_shift_div_l.
    - destruct nums; [congruence|]. unfold Qlt. simpl. lia.
    - rewrite Qmult_0_l. apply squared_deviations_nonneg. }
  split; [|split; [|split; [|split; [|split; [|split; [|split]]]]]].
  - split.
    + intros Hnone. apply lookup_ge_None in Hnone. destruct nums as [|x l]; [reflexivity|].
      assert (H := Nat.div_lt (length (x :: l)) 2). simpl length in *. lia.
    + now intros ->.
  - rewrite last_None. tauto.
  - destruct nums; simpl; split; congruence.
  - intros m Hm. eapply list_elem_of_In, list_elem_of_lookup_2, Hm.
  - intros m Hm. rewrite last_lookup in Hm.
    eapply list_elem_of_In, list_elem_of_lookup_2, Hm.
  - intros m Hm. rewrite head_lookup in Hm.
    eapply list_elem_of_In, list_elem_of_lookup_2, Hm.
  - split.
    + intros Hnan. destruct nums as [|x l]; [reflexivity|].
      destruct Hvar as (v & Hv & _); [discriminate|]. congruence.
    + intros ->. reflexivity.
  - destruct nums as [|x l]; [now left|]. right. apply Hvar. discriminate.
Qed.

(** ** The logged object *)

Ltac run_formatTimings :=
  cbv beta iota zeta delta [_formatTimings alloc _sort];
  rewrite !length_app; simpl length;
  rewrite <- !app_assoc; simpl app;
  rewrite insert_app_0, deref_app_0, deref_cons_0; simpl (<[0%nat := _]> _);
  rewrite insert_app_r, deref_app, !deref_cons_S, deref_cons_0; simpl (<[1%nat := _]> _);
  rewrite <- Nat.add_assoc; simpl (1 + 1)%nat;
  rewrite insert_app_r, deref_app, !deref_cons_S, deref_cons_0; simpl (<[2%nat := _]> _);
  repeat progress
    (rewrite <- ?app_assoc; simpl app;
     rewrite ?deref_app_0, ?deref_app, ?deref_cons_S, ?deref_cons_0).

Lemma lookup_app_add (h l : heap) (k : nat) : (h ++ l) !! (length h + k)%nat = l !! k.
Proof.
  rewrite lookup_app_r by lia. now replace (length h + k - length h)%nat with k by lia.
Qed.

Lemma _formatTimings_tails (timings : list TimingTriple) (h : heap) :
  timings <> [] ->
  exists (l : Locals) (h' : heap),
    _formatTimings timings h = Ok (l, h')
    /\ length h' = (length h + 9)%nat
    /\ forall t,
         (length h + 3 <= highFive_of t (ret l) < length h + 6)%nat
         /\ (length h + 6 <= lowFive_of t (ret l) < length h + 9)%nat
         /\ h' !! highFive_of t (ret l)
            = Some (_getHighFive (sorted_contents (column t timings)))
         /\ h' !! lowFive_of t (ret l)
            = Some (_getLowFive (sorted_contents (column t timings)))
         /\ responses_json_of t (ret l)
            = JSON_stringify (sorted_contents (column t timings)).
Proof.
  intros Hne.
  assert (Hs : forall t, sorted_contents (column t timings) <> []).
  { intros t. apply sorted_contents_nonempty, column_nonempty, Hne. }
  run_formatTimings.
  fold (sorted_contents (map at0 timings)) (sorted_contents (map at1 timings))
       (sorted_contents (map at2 timings)).
  change (map at0 timings) with (column QUIC timings).
  change (map at1 timings) with (column HTTP timings).
  change (map at2 timings) with (column WS timings).
  rewrite !_calculateStdDev_nonempty, !_calculateMean_nonempty by apply Hs.
  cbn [bind].
  eexists _, _. split; [reflexivity|]. split; [rewrite length_app; reflexivity|].
  intros t. destruct t; cbn [highFive_of lowFive_of responses_json_of ret
    Report.quicHighFive Report.httpHighFive Report.wsHighFive
    Report.quicLowFive Report.httpLowFive Report.wsLowFive
    Report.quicResponses Report.httpResponses Report.wsResponses];
    rewrite ?length_app; simpl length; rewrite <- ?Nat.add_assoc; simpl Nat.add;
    rewrite ?lookup_app_add; repeat split; try reflexivity; lia.
Qed.

Lemma head_firstn_5 (s : list Z) : head (firstn 5 s) = head s.
Proof. now destruct s. Qed.

Lemma last_skipn (s : list Z) (k : nat) :
  (k < length s)%nat -> last (skipn k s) = last s.
Proof.
  intros Hk. rewrite <- (firstn_skipn k s) at 2. rewrite last_app.
  destruct (last (skipn k s)) eqn:Hl; [reflexivity|].
  apply last_None in Hl. apply (f_equal (@length Z)) in Hl.
  rewrite length_skipn in Hl. simpl in Hl. lia.
Qed.

(** X5. In the logged object the top five and the bottom five of a
    transport are arrays of their own, allocated by the formatting step
    and distinct from the sorted array: they hold the last and the first
    min(5, n) elements of the sorted sequence, the bottom five start with
    the low, the top five end with the high, and the serialised sequence
    is that of the sorted array. *)
Theorem report_tails_are_fresh_ends
    (t : transport) (timings : list TimingTriple) (h : heap) :
  timings <> [] ->
  exists (l : Locals) (h' : heap) (sortedDurations top bottom : list Z),
    _formatTimings timings h = Ok (l, h')
    /\ h' !! sorted_responses_of t l = Some sortedDurations
    /\ h' !! highFive_of t (ret l) = Some top
    /\ h' !! lowFive_of t (ret l) = Some bottom
    /\ highFive_of t (ret l) <> sorted_responses_of t l
    /\ lowFive_of t (ret l) <> sorted_responses_of t l
    /\ highFive_of t (ret l) <> lowFive_of t (ret l)
    /\ (length h <= highFive_of t (ret l))%nat
    /\ (length h <= lowFive_of t (ret l))%nat
    /\ length top = Nat.min 5 (length timings)
    /\ length bottom = Nat.min 5 (length timings)
    /\ bottom ++ skipn 5 sortedDurations = sortedDurations
    /\ firstn (length timings - 5) sortedDurations ++ top = sortedDurations
    /\ head bottom = low_of t (ret l)
    /\ last top = high_of t (ret l)
    /\ responses_json_of t (ret l) = JSON_stringify sortedDurations.
Proof.
  intros Hne.
  destruct (_formatTimings_nonempty timings h Hne) as (l & Hrun & Hstats).
  destruct (_formatTimings_tails timings h Hne) as (l' & h' & Hrun' & Hlen & Htails).
  rewrite Hrun in Hrun'. injection Hrun' as Hl Hh. subst l' h'.
  destruct (Hstats t) as (Halias & Hrange & Hcell & _ & _ & Hhigh & Hlow & _).
  destruct (Htails t) as (Hhi & Hlo & Hhicell & Hlocell & Hjson).
  set (s := sorted_contents (column t timings)) in *.
  assert (Hslen : length s = length timings).
  { subst s. unfold sorted_contents. rewrite sort_length. destruct t; apply length_map. }
  assert (Hn : (0 < length timings)%nat) by (destruct timings; [congruence|simpl; lia]).
  destruct (tails_ends s) as (L1 & L2 & L3 & L4).
  eexists l, _, s, (_getHighFive s), (_getLowFive s).
  rewrite Halias, <- Hslen.
  split; [exact Hrun|].
  repeat (split; [first [assumption | lia]|]).
  split; [|split; [|exact Hjson]].
  - rewrite Hlow, _calculateLow_head, _getLowFive_firstn. apply head_firstn_5.
  - rewrite Hhigh, _calculateHigh_last, _getHighFive_skipn. apply last_skipn. lia.
Qed.

Lemma report_tails_are_fresh_ends_witness :
  exists (l : Locals) (h' : heap) (sortedDurations top bottom : list Z),
    _formatTimings [(5, 9, 7); (3, 8, 7); (4, 2, 7)] [[1; 0]] = Ok (l, h')
    /\ h' !! sorted_responses_of HTTP l = Some sortedDurations
    /\ h' !! highFive_of HTTP (ret l) = Some top
    /\ h' !! lowFive_of HTTP (ret l) = Some bottom
    /\ highFive_of HTTP (ret l) <> sorted_responses_of HTTP l
    /\ lowFive_of HTTP (ret l) <> sorted_responses_of HTTP l
    /\ highFive_of HTTP (ret l) <> lowFive_of HTTP (ret l)
    /\ (length [[1; 0]] <= highFive_of HTTP (ret l))%nat
    /\ (length [[1; 0]] <= lowFive_of HTTP (ret l))%nat
    /\ length top = Nat.min 5 (length [(5, 9, 7); (3, 8, 7); (4, 2, 7)])
    /\ length bottom = Nat.min 5 (length [(5, 9, 7); (3, 8, 7); (4, 2, 7)])
    /\ bottom ++ skipn 5 sortedDurations = sortedDurations
    /\ firstn (length [(5, 9, 7); (3, 8, 7); (4, 2, 7)] - 5) sortedDurations ++ top
       = sortedDurations
    /\ head bottom = low_of HTTP (ret l)
    /\ last top = high_of HTTP (ret l)
    /\ responses_json_of HTTP (ret l) = JSON_stringify sortedDurations.
Proof.
  apply (report_tails_are_fresh_ends HTTP [(5, 9, 7); (3, 8, 7); (4, 2, 7)] [[1; 0]]).
  discriminate.
Defined.

Lemma sorted_contents_Permutation_eq (a b : list Z) :
  Permutation a b -> sorted_contents a = sorted_contents b.
Proof.
  intros Hp. apply sorted_contents_unique; [apply sorted_contents_Sorted|].
  rewrite Hp. symmetry. apply sorted_contents_Permutation.
Qed.

(** X6. The statistics of a transport depend on nothing but the durations
    of that transport, whatever their order: two sample sets whose columns
    for the transport are permutations of each other get the same mean,
    median, high, low, standard deviation, tails and serialised sequence
    for it, whatever the other transports took. *)
Theorem statistics_ignore_order_and_other_transports
    (t : transport) (timings1 timings2 : list TimingTriple) (h1 h2 : heap) :
  timings1 <> [] ->
  Permutation (column t timings1) (column t timings2) ->
  exists (l1 l2 : Locals) (h1' h2' : heap),
    _formatTimings timings1 h1 = Ok (l1, h1')
    /\ _formatTimings timings2 h2 = Ok (l2, h2')
    /\ mean_of t (ret l1) = mean_of t (ret l2)
    /\ median_of t (ret l1) = median_of t (ret l2)
    /\ high_of t (ret l1) = high_of t (ret l2)
    /\ low_of t (ret l1) = low_of t (ret l2)
    /\ stdDev_of t (ret l1) = stdDev_of t (ret l2)
    /\ responses_json_of t (ret l1) = responses_json_of t (ret l2)
    /\ h1' !! sorted_responses_of t l1 = h2' !! sorted_responses_of t l2
    /\ h1' !! highFive_of t (ret l1) = h2' !! highFive_of t (ret l2)
    /\ h1' !! lowFive_of t (ret l1) = h2' !! lowFive_of t (ret l2).
Proof.
  intros Hne1 Hperm.
  assert (Hne2 : timings2 <> []).
  { intros ->. apply (column_nonempty t) in Hne1. apply Hne1.
    apply Permutation_nil. symmetry. destruct t; exact Hperm. }
  assert (Hs := sorted_contents_Permutation_eq _ _ Hperm).
  destruct (_formatTimings_nonempty timings1 h1 Hne1) as (l1 & Hrun1 & Hstats1).
  destruct (_formatTimings_nonempty timings2 h2 Hne2) as (l2 & Hrun2 & Hstats2).
  destruct (_formatTimings_tails timings1 h1 Hne1) as (l1' & h1' & Hrun1' & _ & Htails1).
  destruct (_formatTimings_tails timings2 h2 Hne2) as (l2' & h2' & Hrun2' & _ & Htails2).
  rewrite Hrun1 in Hrun1'. injection Hrun1' as Hl1 Hh1. subst l1' h1'.
  rewrite Hrun2 in Hrun2'. injection Hrun2' as Hl2 Hh2. subst l2' h2'.
  destruct (Hstats1 t) as (A1 & _ & C1 & M1 & D1 & G1 & W1 & S1).
  destruct (Hstats2 t) as (A2 & _ & C2 & M2 & D2 & G2 & W2 & S2).
  destruct (Htails1 t) as (_ & _ & T1 & B1 & J1).
  destruct (Htails2 t) as (_ & _ & T2 & B2 & J2).
  rewrite Hs in *.
  eexists l1, l2, _, _. split; [exact Hrun1|]. split; [exact Hrun2|].
  split; [congruence|]. split; [congruence|]. split; [congruence|]. split; [congruence|].
  split; [congruence|]. split; [congruence|].
  rewrite <- A1 in C1. rewrite <- A2 in C2.
  split; [exact (eq_trans C1 (eq_sym C2))|].
  split; [exact (eq_trans T1 (eq_sym T2))|exact (eq_trans B1 (eq_sym B2))].
Qed.

Lemma statistics_ignore_order_and_other_transports_witness :
  exists (l1 l2 : Locals) (h1' h2' : heap),
    _formatTimings [(5, 9, 7); (3, 8, 7); (4, 2, 7)] [] = Ok (l1, h1')
    /\ _formatTimings [(0, 2, 1); (0, 9, 1); (0, 8, 1)] [[6]] = Ok (l2, h2')
    /\ mean_of HTTP (ret l1) = mean_of HTTP (ret l2)
    /\ median_of HTTP (ret l1) = median_of HTTP (ret l2)
    /\ high_of HTTP (ret l1) = high_of HTTP (ret l2)
    /\ low_of HTTP (ret l1) = low_of HTTP (ret l2)
    /\ stdDev_of HTTP (ret l1) = stdDev_of HTTP (ret l2)
    /\ responses_json_of HTTP (ret l1) = responses_json_of HTTP (ret l2)
    /\ h1' !! sorted_responses_of HTTP l1 = h2' !! sorted_responses_of HTTP l2
    /\ h1' !! highFive_of HTTP (ret l1) = h2' !! highFive_of HTTP (ret l2)
    /\ h1' !! lowFive_of HTTP (ret l1) = h2' !! lowFive_of HTTP (ret l2).
Proof.
  apply (statistics_ignore_order_and_other_transports HTTP
           [(5, 9, 7); (3, 8, 7); (4, 2, 7)] [(0, 2, 1); (0, 9, 1); (0, 8, 1)] [] [[6]]).
  - discriminate.
  - simpl. apply Permutation_sym. apply (Permutation_cons_append [9; 8] 2).
Defined.

(** ** One sample, and a constant delay *)

Lemma _calculateStdDev_value (nums : list Z) :
  nums <> [] ->
  exists v : Q,
    _calculateStdDev nums = Ok (Num (sqrt (Q2R v)))
    /\ (v == population_variance nums)%Q
    /\ (0 <= v)%Q.
Proof.
  intros Hne.
  destruct (_calculateVariance_nonempty (arithmetic_mean nums) nums Hne) as (v & Hv & Hq).
  fold (population_variance nums) in Hq.
  assert (Hv0 : (0 <= v)%Q).
  { rewrite Hq. unfold population_variance. apply Qle_shift_div_l.
    - destruct nums; [congruence|]. unfold Qlt. simpl. lia.
    - rewrite Qmult_0_l. apply squared_deviations_nonneg. }
  exists v. split; [|split; assumption].
  rewrite _calculateStdDev_nonempty, Hv by assumption. unfold Math_sqrt.
  apply Qle_bool_iff in Hv0. now rewrite Hv0.
Qed.

Lemma sqrt_Q2R_0 (v : Q) : (v == 0)%Q -> sqrt (Q2R v) = 0%R.
Proof.
  intros H0. apply Qeq_eqR in H0. rewrite H0.
  replace (Q2R 0) with 0%R by (unfold Q2R; simpl; lra). apply sqrt_0.
Qed.

(** X7. With a single sample, the mean, the median, the high and the low
    of every transport are the duration of that sample and its standard
    deviation is zero. *)
Theorem single_sample_statistics (t : transport) (sample : TimingTriple) (h : heap) :
  exists (l : Locals) (h' : heap) (x : Z) (mu : Q),
    _formatTimings [sample] h = Ok (l, h')
    /\ column t [sample] = [x]
    /\ mean_of t (ret l) = Num mu
    /\ (mu == inject_Z x)%Q
    /\ median_of t (ret l) = Some x
    /\ high_of t (ret l) = Some x
    /\ low_of t (ret l) = Some x
    /\ stdDev_of t (ret l) = Num 0%R.
Proof.
  destruct (_formatTimings_nonempty [sample] h) as (l & Hrun & Hstats); [discriminate|].
  destruct (Hstats t) as (_ & _ & _ & Hmean & Hmed & Hhigh & Hlow & Hsd).
  assert (Hcol : exists x, column t [sample] = [x]) by (destruct t; simpl; eauto).
  destruct Hcol as [x Hcol]. rewrite Hcol in *.
  change (sorted_contents [x]) with [x] in *.
  destruct (_calculateStdDev_value [x]) as (v & Hv & Hq & _); [discriminate|].
  eexists l, _, x, _. split; [exact Hrun|]. split; [reflexivity|].
  split; [exact Hmean|]. split.
  - unfold arithmetic_mean. simpl. rewrite Z.add_0_r. field.
  - split; [exact Hmed|]. split; [exact Hhigh|]. split; [exact Hlow|].
    rewrite Hv in Hsd. injection Hsd as <-. f_equal. apply sqrt_Q2R_0.
    rewrite Hq. apply population_variance_0; [discriminate|].
    intros a b Ha Hb. apply list_elem_of_singleton in Ha, Hb. congruence.
Qed.

Lemma Sorted_shift (d : Z) (l : list Z) :
  Sorted Z.le l -> Sorted Z.le (map (Z.add d) l).
Proof.
  induction 1 as [|x l Hs IH Hhd]; simpl; constructor; [assumption|].
  destruct Hhd; simpl; constructor. lia.
Qed.

Lemma sorted_contents_shift (d : Z) (nums : list Z) :
  sorted_contents (map (Z.add d) nums) = map (Z.add d) (sorted_contents nums).
Proof.
  apply sorted_contents_unique.
  - apply Sorted_shift, sorted_contents_Sorted.
  - apply Permutation_map. symmetry. apply sorted_contents_Permutation.
Qed.

Lemma _calculateMedian_shift (d : Z) (nums : list Z) :
  _calculateMedian (map (Z.add d) nums) = option_map (Z.add d) (_calculateMedian nums).
Proof.
  rewrite !_calculateMedian_lookup, length_map.
  change (map (Z.add d) nums) with (Z.add d <$> nums). now rewrite list_lookup_fmap.
Qed.

Lemma slice_shift (d : Z) (nums : list Z) (start : Z) (stop : option Z) :
  slice (map (Z.add d) nums) start stop = map (Z.add d) (slice nums start stop).
Proof. unfold slice. now rewrite length_map, skipn_map, firstn_map. Qed.

(** X8. A delay [d] added to every duration moves the sorted sequence, the
    median, the high, the low and the five highest and five lowest values
    by [d]. *)
Theorem constant_delay_moves_order_statistics (d : Z) (nums : list Z) :
  sorted_contents (map (Z.add d) nums) = map (Z.add d) (sorted_contents nums)
  /\ _calculateMedian (sorted_contents (map (Z.add d) nums))
     = option_map (Z.add d) (_calculateMedian (sorted_contents nums))
  /\ _calculateHigh (sorted_contents (map (Z.add d) nums))
     = option_map (Z.add d) (_calculateHigh (sorted_contents nums))
  /\ _calculateLow (sorted_contents (map (Z.add d) nums))
     = option_map (Z.add d) (_calculateLow (sorted_contents nums))
  /\ _getHighFive (sorted_contents (map (Z.add d) nums))
     = map (Z.add d) (_getHighFive (sorted_contents nums))
  /\ _getLowFive (sorted_contents (map (Z.add d) nums))
     = map (Z.add d) (_getLowFive (sorted_contents nums)).
Proof.
  rewrite sorted_contents_shift. set (s := sorted_contents nums).
  split; [reflexivity|]. split; [apply _calculateMedian_shift|].
  split; [|split; [|split; apply slice_shift]].
  - rewrite !_calculateHigh_last. change (map (Z.add d) s) with (Z.add d <$> s).
    now rewrite fmap_last.
  - rewrite !_calculateLow_head. now destruct s.
Qed.

(** ** When the report is logged *)

Lemma race_resolved_iff (r : Runner) :
  race_joins r ->
  (exists s, race r = Resolved s)
  <-> (forall t, exists d, outcome (operation_of t r) = Resolved d).
Proof.
  intros Hj. split.
  - intros [[[a b] d] Hs]. unfold race_joins in Hj. rewrite Hs in Hj.
    unfold outcomes in Hj. injection Hj as Ha Hb Hd.
    intros []; simpl; eauto.
  - intros Hall.
    destruct (Hall QUIC) as [a Ha], (Hall HTTP) as [b Hb], (Hall WS) as [d Hd].
    simpl in Ha, Hb, Hd. exists (a, b, d). apply race_joins_resolved; [assumption|].
    unfold outcomes. now rewrite Ha, Hb, Hd.
Qed.

Lemma joins_resolved_iff {A} (ps : list (promise A)) (all : promise (list A)) :
  joins ps all ->
  (exists vs, all = Resolved vs) <-> (forall p, In p ps -> exists v, p = Resolved v).
Proof.
  intros Hj. split.
  - intros [vs ->]. simpl in Hj. apply values_of_Some in Hj. subst ps.
    intros p Hp. apply in_map_iff in Hp as (v & <- & _). eauto.
  - intros Hall. destruct (all_resolved ps) as [vs ->].
    + intros i p Hp. apply Hall. eapply list_elem_of_In, list_elem_of_lookup_2, Hp.
    + exists vs. now apply joins_resolved.
Qed.

(** X9. In a run in client mode [_formatTimings] is called exactly when
    every operation of every runner is resolved, with the samples of the
    runners in their order; a runner has a sample exactly when its three
    operations are resolved.  So a run in which some operation is not
    resolved logs nothing. *)
Theorem report_exactly_when_all_resolved (w : World) (c : Config) :
  exists st : State,
    run w c true (turns c) = Some st
    /\ (forall r, In r (responsePromises st) ->
          (exists s, race r = Resolved s)
          <-> (forall t, exists d, outcome (operation_of t r) = Resolved d))
    /\ ((exists out, logged st = Some out)
        <-> (forall r, In r (responsePromises st) ->
               forall t, exists d, outcome (operation_of t r) = Resolved d))
    /\ (forall out, logged st = Some out ->
          exists timings,
            joined st = Some (Resolved timings)
            /\ out = _formatTimings timings []
            /\ map race (responsePromises st) = map Resolved timings).
Proof.
  destruct (run_client w c) as (st & Hrun & _ & _ & _ & [Hraces Hjoin] & _ & Hsome & _).
  exists st. split; [exact Hrun|].
  rewrite Forall_forall in Hraces.
  assert (Hrace : forall r, In r (responsePromises st) ->
            (exists s, race r = Resolved s)
            <-> (forall t, exists d, outcome (operation_of t r) = Resolved d)).
  { intros r Hr. apply race_resolved_iff, Hraces. now apply list_elem_of_In. }
  split; [exact Hrace|].
  destruct (joined st) as [all|]; [|congruence]. destruct Hjoin as [Hj Hlog].
  assert (Hall := joins_resolved_iff _ _ Hj).
  split.
  - rewrite Hlog. split.
    + intros [out Hout]. destruct all as [|ts|e]; try discriminate.
      intros r Hr. apply Hrace; [assumption|].
      apply (proj1 Hall); [eauto|]. now apply in_map.
    + intros Hres. destruct (proj2 Hall) as [ts ->]; [|simpl; eauto].
      intros p Hp. apply in_map_iff in Hp as (r & <- & Hr).
      apply Hrace; auto.
  - intros out Hout. rewrite Hlog in Hout.
    destruct all as [|ts|e]; try discriminate. injection Hout as <-.
    exists ts. split; [reflexivity|]. split; [reflexivity|].
    simpl in Hj. now apply values_of_Some.
Qed.

(** ** Settled for good *)

Lemma replied_operation_final (t t' : transport) (resp : string) (now : Z) (r : Runner) :
  outcome (operation_of t' r) <> Pending ->
  operation_of t' (replied t resp now r) = operation_of t' r.
Proof.
  intros Hset. destruct (decide (t' = t)) as [->|Hne];
    [|now apply replied_outcome_other].
  destruct r as [d [p1 s1 o1] [p2 s2 o2] [p3 s3 o3] rc].
  destruct t; simpl in *;
    match goal with H : ?o <> Pending |- _ => destruct o; try congruence end;
    destruct (negb (resp =? d)%string); reflexivity.
Qed.

Lemma replied_race_final (t : transport) (resp : string) (now : Z) (r : Runner) :
  race r <> Pending -> race (replied t resp now r) = race r.
Proof.
  intros Hset. destruct r as [d [p1 s1 o1] [p2 s2 o2] [p3 s3 o3] rc].
  destruct t; simpl in *; destruct (negb (resp =? d)%string), o1, o2, o3, rc;
    simpl; congruence.
Qed.

Lemma deliver_final (w : World) (reply : Reply) (st : State)
    (i : nat) (t : transport) (op : Operation) (settled_race : promise TimingTriple) :
  (exists r, responsePromises st !! i = Some r
             /\ operation_of t r = op
             /\ (settled_race <> Pending -> race r = settled_race)) ->
  outcome op <> Pending ->
  exists r, responsePromises (deliver w reply st) !! i = Some r
            /\ operation_of t r = op
            /\ (settled_race <> Pending -> race r = settled_race).
Proof.
  intros (r & Hi & Hop & Hrace) Hset.
  destruct (responsePromises st !! runner reply) as [r0|] eqn:Hr0;
    [|rewrite deliver_None by assumption; eauto].
  rewrite (deliver_Some w reply st r0 Hr0). simpl.
  destruct (decide (runner reply = i)) as [Heq|Hne].
  - rewrite Heq in *. assert (r0 = r) by congruence. subst r0.
    eexists. split; [apply list_lookup_insert_eq; now apply lookup_lt_Some in Hi|].
    split.
    + rewrite replied_operation_final; [assumption|congruence].
    + intros Hs. rewrite replied_race_final; [auto|]. rewrite (Hrace Hs). exact Hs.
  - exists r. split; [now rewrite list_lookup_insert_ne|auto].
Qed.

Lemma deliver_joined_final (w : World) (reply : Reply) (st : State)
    (all : promise (list TimingTriple)) :
  joined st = Some all -> all <> Pending ->
  joined (deliver w reply st) = Some all /\ logged (deliver w reply st) = logged st.
Proof.
  intros Hall Hset.
  destruct (responsePromises st !! runner reply) as [r0|] eqn:Hr0;
    [|rewrite deliver_None by assumption; auto].
  rewrite (deliver_Some w reply st r0 Hr0). simpl. rewrite Hall.
  rewrite Promise_all_react_settled by assumption.
  split; [reflexivity|]. now destruct all.
Qed.

(** X10. A promise that is settled stays as it is: whatever replies
    arrive later, the same one again or others, an operation that is
    resolved or rejected keeps its outcome, a runner that is resolved or
    rejected keeps its result, and once the promise of the whole run is
    settled it is not changed and nothing more is logged. *)
Theorem settled_is_final
    (w : World) (replies : list Reply) (st : State)
    (i : nat) (t : transport) (r : Runner) :
  responsePromises st !! i = Some r ->
  outcome (operation_of t r) <> Pending ->
  (exists r', responsePromises (deliver_all w replies st) !! i = Some r'
              /\ operation_of t r' = operation_of t r
              /\ (race r <> Pending -> race r' = race r))
  /\ (forall all, joined st = Some all -> all <> Pending ->
        joined (deliver_all w replies st) = Some all
        /\ logged (deliver_all w replies st) = logged st).
Proof.
  intros Hi Hset. split.
  - apply (deliver_all_invariant
             (fun st' => exists r', responsePromises st' !! i = Some r'
                                    /\ operation_of t r' = operation_of t r
                                    /\ (race r <> Pending -> race r' = race r))).
    + intros reply st' H. now apply deliver_final.
    + exists r. auto.
  - intros all Hall Hs.
    apply (deliver_all_invariant
             (fun st' => joined st' = Some all /\ logged st' = logged st)).
    + intros reply st' [Hj Hl]. rewrite <- Hl. now apply deliver_joined_final.
    + auto.
Qed.

Lemma settled_is_final_witness :
  exists st r,
    run garbling (defaults 2 8000) true 2 = Some st
    /\ responsePromises st !! 0%nat = Some r
    /\ (exists r', responsePromises
                     (deliver_all garbling
                        [{| runner := 0; via := HTTP |}; {| runner := 0; via := QUIC |}] st)
                   !! 0%nat = Some r'
                /\ operation_of HTTP r' = operation_of HTTP r
                /\ (race r <> Pending -> race r' = race r))
    /\ (forall all, joined st = Some all -> all <> Pending ->
          joined (deliver_all garbling
                    [{| runner := 0; via := HTTP |}; {| runner := 0; via := QUIC |}] st)
          = Some all
          /\ logged (deliver_all garbling
                       [{| runner := 0; via := HTTP |}; {| runner := 0; via := QUIC |}] st)
             = logged st).
Proof.
  eexists _, _. split; [vm_compute; reflexivity|]. split; [reflexivity|].
  apply (settled_is_final garbling
           [{| runner := 0; via := HTTP |}; {| runner := 0; via := QUIC |}] _ 0 HTTP).
  - reflexivity.
  - discriminate.
Defined.

(** ** A reply that never comes *)

Lemma deliver_all_invariant_on (P : State -> Prop) (Q : Reply -> Prop) (w : World) :
  (forall reply st, Q reply -> P st -> P (deliver w reply st)) ->
  forall replies st, Forall Q replies -> P st -> P (deliver_all w replies st).
Proof.
  intros Hstep replies. unfold deliver_all.
  induction replies as [|reply replies IH]; intros st HQ HP; simpl; [assumption|].
  apply Forall_cons in HQ as [Hq HQ]. apply IH; auto.
Qed.

Lemma main_loop_client_invariant_on
    (P : State -> Prop) (Q : Reply -> Prop) (w : World) (c : Config) :
  (forall k, Forall Q (during_sleep w k)) ->
  (forall p q r st, P st -> P (runAsClient w c p q r st)) ->
  (forall reply st, Q reply -> P st -> P (deliver w reply st)) ->
  forall fuel p sleeps st st',
    P st -> main_loop w c true fuel p sleeps st = Some st' -> P st'.
Proof.
  intros HQ Hlaunch Hreply fuel.
  induction fuel as [|fuel IH]; intros p sleeps st st' HP Hrun; simpl in Hrun;
    destruct (p <? START_PORT c + NUM_SPINUPS c); try congruence.
  eapply IH; [|exact Hrun].
  apply (deliver_all_invariant_on P Q); auto.
Qed.

(** X11. There is no timeout: when the reply to one operation never
    arrives, that operation stays pending for the whole run, its runner
    gets no sample, the promise of the run is never resolved and nothing
    is logged, whatever the other operations did. *)
Theorem stalled_reply_stalls_the_report
    (w : World) (c : Config) (i : nat) (t : transport) :
  (i < turns c)%nat ->
  never_arrives w i t ->
  exists (st : State) (r : Runner),
    run w c true (turns c) = Some st
    /\ responsePromises st !! i = Some r
    /\ outcome (operation_of t r) = Pending
    /\ (forall s, race r <> Resolved s)
    /\ (forall timings, joined st <> Some (Resolved timings))
    /\ logged st = None.
Proof.
  intros Hi [Hsleep Hafter].
  set (Q := fun reply : Reply => reply <> {| runner := i; via := t |}).
  set (P := fun st : State =>
              forall r, responsePromises st !! i = Some r ->
                        outcome (operation_of t r) = Pending).
  assert (HQ : forall replies, ~ In {| runner := i; via := t |} replies -> Forall Q replies).
  { intros replies Hnot. apply Forall_forall. intros reply Hin Heq. subst reply.
    apply Hnot. now apply list_elem_of_In. }
  assert (Hlaunch : forall p q r st, P st -> P (runAsClient w c p q r st)).
  { intros p q r0 st HP r Hr. rewrite runAsClient_eq in Hr. simpl in Hr.
    apply lookup_app_Some in Hr as [Hr|[_ Hr]]; [now apply HP|].
    destruct (i - length (responsePromises st))%nat; [|discriminate].
    injection Hr as <-. now destruct t. }
  assert (Hreply : forall reply st, Q reply -> P st -> P (deliver w reply st)).
  { intros reply st Hq HP r Hr.
    destruct (responsePromises st !! runner reply) as [r0|] eqn:Hr0;
      [|rewrite deliver_None in Hr by assumption; now apply HP].
    rewrite (deliver_Some w reply st r0 Hr0) in Hr. simpl in Hr.
    destruct (decide (runner reply = i)) as [Heq|Hne].
    - rewrite Heq in *.
      rewrite list_lookup_insert_eq in Hr by (eapply lookup_lt_Some, Hr0).
      injection Hr as <-. rewrite replied_outcome_other; [now apply HP|].
      intros ->. apply Hq. destruct reply. simpl in *. congruence.
    - rewrite list_lookup_insert_ne in Hr by assumption. now apply HP. }
  destruct (run_client w c) as (st & Hrun & Hl & _ & _ & [Hraces Hjoin] & _ & Hsome & _).
  assert (HP : P st).
  { unfold run, main in Hrun.
    destruct (main_loop w c true (turns c) 8000 0 initial) as [st0|] eqn:Hloop;
      [|discriminate].
    injection Hrun as <-.
    apply (deliver_all_invariant_on P Q); [assumption|now apply HQ|].
    change (P st0).
    apply (main_loop_client_invariant_on P Q w c (fun k => HQ _ (Hsleep k))
             Hlaunch Hreply (turns c) 8000 0%nat initial st0); [|exact Hloop].
    intros r Hr. discriminate. }
  destruct (lookup_lt_is_Some_2 (responsePromises st) i) as [r Hr].
  { rewrite <- (length_map launch), Hl, launches_length. exact Hi. }
  assert (Hpending := HP r Hr).
  assert (Hnorace : forall s, race r <> Resolved s).
  { intros s Hs. rewrite Forall_lookup in Hraces.
    destruct (proj1 (race_resolved_iff r (Hraces i r Hr)) (ex_intro _ s Hs) t) as [d Hd].
    congruence. }
  exists st, r. split; [exact Hrun|]. split; [exact Hr|]. split; [exact Hpending|].
  split; [exact Hnorace|].
  destruct (joined st) as [all|]; [|congruence]. destruct Hjoin as [Hj Hlog].
  assert (Hnot : forall timings, all <> Resolved timings).
  { intros timings ->.
    destruct (proj1 (joins_resolved_iff _ _ Hj) (ex_intro _ timings eq_refl) (race r))
      as [s Hs]; [|now apply (Hnorace s)].
    apply in_map. eapply list_elem_of_In, list_elem_of_lookup_2, Hr. }
  split; [intros timings [= ->]; now apply (Hnot timings)|].
  rewrite Hlog. destruct all; [reflexivity| |reflexivity]. now destruct (Hnot v).
Qed.

Lemma stalled_reply_stalls_the_report_witness :
  exists (st : State) (r : Runner),
    run stalling (defaults 2 8000) true (turns (defaults 2 8000)) = Some st
    /\ responsePromises st !! 1%nat = Some r
    /\ outcome (operation_of WS r) = Pending
    /\ (forall s, race r <> Resolved s)
    /\ (forall timings, joined st <> Some (Resolved timings))
    /\ logged st = None.
Proof.
  apply (stalled_reply_stalls_the_report stalling (defaults 2 8000) 1 WS).
  - vm_compute. lia.
  - split.
    + intros [|k]; simpl; intros H; [destruct H as [H|[]]; discriminate|exact H].
    + simpl. intros H. repeat (destruct H as [H|H]; [discriminate|]). exact H.
Defined.

(** ** What a duration measures *)

Lemma runAsClient_stamped (w : World) (c : Config) (p q r : Z) (st : State) :
  stamped w st -> stamped w (runAsClient w c p q r st).
Proof.
  intros Hs. rewrite runAsClient_eq. unfold stamped in *. simpl.
  apply Forall_app. split.
  - eapply Forall_impl; [exact Hs|]. intros r0 (j & Hj & H1 & H2 & H3 & Hd).
    exists j. split; [lia|]. split; [assumption|]. split; [assumption|].
    split; [assumption|]. intros t d Ht. destruct (Hd t d Ht) as (k & Hk & ->).
    exists k. split; [lia|reflexivity].
  - constructor; [|constructor]. exists (clock_reads st). simpl.
    split; [lia|]. split; [reflexivity|]. split; [reflexivity|]. split; [reflexivity|].
    intros [] d Hd; discriminate.
Qed.

Lemma deliver_stamped (w : World) (reply : Reply) (st : State) :
  stamped w st -> stamped w (deliver w reply st).
Proof.
  intros Hs.
  destruct (responsePromises st !! runner reply) as [r|] eqn:Hr;
    [|now rewrite deliver_None].
  rewrite (deliver_Some w reply st r Hr). unfold stamped in *. simpl.
  assert (Hr0 := Hs). rewrite Forall_lookup in Hr0. specialize (Hr0 _ _ Hr).
  apply Forall_insert.
  - eapply Forall_impl; [exact Hs|]. intros r0 (j & Hj & H1 & H2 & H3 & Hd).
    exists j. split; [lia|]. split; [assumption|]. split; [assumption|].
    split; [assumption|]. intros t d Ht. destruct (Hd t d Ht) as (k & Hk & ->).
    exists k. split; [lia|reflexivity].
  - destruct Hr0 as (j & Hj & H1 & H2 & H3 & Hd).
    set (r' := replied _ _ _ r).
    assert (Hstart : forall t, start (operation_of t r') = start (operation_of t r))
      by apply replied_static.
    exists j. split; [lia|].
    split; [rewrite <- H1; apply (Hstart QUIC)|].
    split; [rewrite <- H2; apply (Hstart HTTP)|].
    split; [rewrite <- H3; apply (Hstart WS)|].
    intros t d Ht. rewrite Hstart.
    destruct (decide (t = via reply)) as [->|Hne].
    + subst r'. rewrite replied_outcome in Ht.
      destruct (outcome (operation_of (via reply) r)) as [|d0|e] eqn:Ho.
      * destruct (String.eqb _ _); [|discriminate]. injection Ht as <-.
        exists (clock_reads st). split; [lia|reflexivity].
      * injection Ht as <-. destruct (Hd _ _ Ho) as (k & Hk & ->).
        exists k. split; [lia|reflexivity].
      * discriminate.
    + subst r'. rewrite replied_outcome_other in Ht by assumption.
      destruct (Hd _ _ Ht) as (k & Hk & ->). exists k. split; [lia|reflexivity].
Qed.


(** X12. Each of the three operations of a runner has a start of its own:
    the three starts are three successive readings of the clock, in the
    order QUIC, HTTP, web socket.  The duration an operation is resolved
    with is the difference between a reading taken later than all three
    starts, when its reply is handled, and its own start. *)
Theorem durations_run_from_own_start (w : World) (c : Config) :
  exists st : State,
    run w c true (turns c) = Some st
    /\ forall i r, responsePromises st !! i = Some r ->
         exists j : nat,
           start (quicPromise r) = clock w j
           /\ start (httpPromise r) = clock w (S j)
           /\ start (wsPromise r) = clock w (S (S j))
           /\ forall t d, outcome (operation_of t r) = Resolved d ->
                exists k, (S (S j) < k < clock_reads st)%nat
                          /\ d = clock w k - start (operation_of t r).
Proof.
  destruct (run_client w c) as (st & Hrun & _).
  exists st. split; [exact Hrun|].
  assert (Hs : stamped w st).
  { unfold run, main in Hrun.
    destruct (main_loop w c true (turns c) 8000 0 initial) as [st0|] eqn:Hloop;
      [|discriminate].
    injection Hrun as <-.
    apply deliver_all_invariant; [intros; now apply deliver_stamped|].
    change (stamped w st0).
    apply (main_loop_client_invariant (stamped w) w c)
      with (fuel := turns c) (p := 8000) (sleeps := 0%nat) (st := initial).
    - intros. now apply runAsClient_stamped.
    - intros. now apply deliver_stamped.
    - constructor.
    - exact Hloop. }
  unfold stamped in Hs. rewrite Forall_lookup in Hs.
  intros i r Hr. destruct (Hs i r Hr) as (j & _ & H1 & H2 & H3 & Hd).
  exists j. auto.
Qed.

(** ** The samples of a run in client mode *)




(** ** Clients and servers *)

Lemma bindings_launches (w : World) (c : Config) (n : nat) (p : Z) (k : nat) :
  bindings c n p
  = flat_map (fun l => [(QUIC, fst (fst (snd l))); (HTTP, snd (fst (snd l)));
                        (WS, snd (snd l))])
             (launches w c n p k).
Proof.
  revert p k. induction n as [|n IH]; intros p k; [reflexivity|].
  simpl. now rewrite <- IH.
Qed.

Lemma flat_map_targets (rs : list Runner) :
  flat_map targets rs
  = flat_map (fun l => [(QUIC, fst (fst (snd l))); (HTTP, snd (fst (snd l)));
                        (WS, snd (snd l))])
             (map launch rs).
Proof. induction rs as [|r rs IH]; [reflexivity|]. simpl. now rewrite <- IH. Qed.

(** X13. Run with the same configuration, the servers and the clients
    agree on the ports: the listeners that server mode starts are, in
    order, the servers that the runners of client mode send to, transport
    by transport, whatever the start port and the number of instances. *)
Theorem clients_target_the_servers (w w' : World) (c : Config) :
  exists servers clients : State,
    run w c false (turns c) = Some servers
    /\ run w' c true (turns c) = Some clients
    /\ listeners servers = flat_map targets (responsePromises clients)
    /\ length (listeners servers) = (3 * length (responsePromises clients))%nat.
Proof.
  destruct (run_server w c) as (servers & Hs & Hl & _).
  destruct (run_client w' c) as (clients & Hc & Hlaunch & _).
  exists servers, clients. split; [exact Hs|]. split; [exact Hc|].
  assert (Heq : listeners servers = flat_map targets (responsePromises clients)).
  { rewrite Hl, flat_map_targets, Hlaunch. apply bindings_launches. }
  split; [exact Heq|]. rewrite Heq.
  clear. induction (responsePromises clients) as [|r rs IH]; [reflexivity|].
  simpl. rewrite IH. lia.
Qed.

(** ** Server mode *)

Lemma main_loop_server_invariant (P : State -> Prop) (w : World) (c : Config) :
  (forall p q r st, P st -> P (runAsServer p q r st)) ->
  forall fuel p sleeps st st',
    P st -> main_loop w c false fuel p sleeps st = Some st' -> P st'.
Proof.
  intros Hstep fuel.
  induction fuel as [|fuel IH]; intros p sleeps st st' HP Hrun; simpl in Hrun;
    destruct (p <? START_PORT c + NUM_SPINUPS c); try congruence.
  eapply IH; [|exact Hrun]. auto.
Qed.

Lemma bindings_length (c : Config) (n : nat) (p : Z) :
  length (bindings c n p) = (3 * n)%nat.
Proof. revert p. induction n as [|n IH]; intros p; simpl; [reflexivity|]. rewrite IH. lia. Qed.

(** X14. A run in server mode only starts listeners, three for each turn
    of the loop: it never reads the clock or the payload file, creates no
    promise, and neither joins nor logs anything. *)
Theorem server_mode_only_listens (w : World) (c : Config) :
  exists st : State,
    run w c false (turns c) = Some st
    /\ length (listeners st) = (3 * turns c)%nat
    /\ clock_reads st = 0%nat
    /\ file_reads st = 0%nat
    /\ responsePromises st = []
    /\ joined st = None
    /\ logged st = None.
Proof.
  destruct (run_server w c) as (st & Hrun & Hl & Hf & Hr).
  exists st. split; [exact Hrun|]. split; [rewrite Hl; apply bindings_length|].
  assert (HP : clock_reads st = 0%nat /\ joined st = None /\ logged st = None).
  { unfold run, main in Hrun.
    destruct (main_loop w c false (turns c) 8000 0 initial) as [st0|] eqn:Hloop;
      [|discriminate].
    assert (H0 : clock_reads st0 = 0%nat /\ joined st0 = None /\ logged st0 = None
                 /\ responsePromises st0 = []).
    { apply (main_loop_server_invariant
               (fun s => clock_reads s = 0%nat /\ joined s = None /\ logged s = None
                         /\ responsePromises s = []) w c)
        with (fuel := turns c) (p := 8000) (sleeps := 0%nat) (st := initial).
      - intros p q r s H. exact H.
      - repeat split.
      - exact Hloop. }
    destruct H0 as (H1 & H2 & H3 & H4).
    rewrite deliver_all_no_runner in Hrun by assumption.
    injection Hrun as <-. auto. }
  tauto.
Qed.

(** ** The environment *)

(** X15. For a [NUM_SPINUPS] of the environment that is a whole number or
    no number, [NUM_SPINUPS] is never zero: a value of 0, like a missing
    or unreadable one, asks for one instance.  With [START_PORT] left alone
    the loop then launches as many runners as that whole number says when
    it is positive, and none when it is negative. *)
Theorem spinups_from_the_environment (w : World) (e : ProcessEnv) :
  env_START_PORT e = None ->
  NUM_SPINUPS (configure e) <> 0
  /\ START_PORT (configure e) = 8000
  /\ exists st : State,
       run w (configure e) true (turns (configure e)) = Some st
       /\ length (responsePromises st) = requested e
       /\ (NUM_SPINUPS (configure e) < 0 -> responsePromises st = []).
Proof.
  intros Hport.
  assert (Hnum : NUM_SPINUPS (configure e) <> 0).
  { unfold configure, number_or. simpl. destruct (env_NUM_SPINUPS e) as [n|]; [|lia].
    destruct (Z.eqb_spec n 0); lia. }
  assert (Hstart : START_PORT (configure e) = 8000).
  { unfold configure. simpl. now rewrite Hport. }
  split; [exact Hnum|]. split; [exact Hstart|].
  destruct (run_client w (configure e)) as (st & Hrun & Hl & _).
  assert (Hlen : length (responsePromises st) = turns (configure e)).
  { rewrite <- (length_map launch), Hl. apply launches_length. }
  assert (Hturns : turns (configure e) = requested e).
  { unfold turns. rewrite Hstart. unfold configure, number_or, requested. simpl.
    destruct (env_NUM_SPINUPS e) as [n|]; [|reflexivity].
    destruct (Z.eqb_spec n 0); [reflexivity|f_equal; lia]. }
  exists st. split; [exact Hrun|]. split; [congruence|].
  intros Hneg. apply length_zero_iff_nil. rewrite Hlen. unfold turns. lia.
Qed.

Lemma spinups_from_the_environment_witness :
  NUM_SPINUPS (configure {| env_NUM_SPINUPS := Some 0; env_START_PORT := None;
                            env_ADDRESS := None; env_DATA_SIZE := None |}) <> 0
  /\ START_PORT (configure {| env_NUM_SPINUPS := Some 0; env_START_PORT := None;
                              env_ADDRESS := None; env_DATA_SIZE := None |}) = 8000
  /\ exists st : State,
       run echoing
           (configure {| env_NUM_SPINUPS := Some 0; env_START_PORT := None;
                         env_ADDRESS := None; env_DATA_SIZE := None |})
           true
           (turns (configure {| env_NUM_SPINUPS := Some 0; env_START_PORT := None;
                                env_ADDRESS := None; env_DATA_SIZE := None |}))
       = Some st
       /\ length (responsePromises st)
          = requested {| env_NUM_SPINUPS := Some 0; env_START_PORT := None;
                         env_ADDRESS := None; env_DATA_SIZE := None |}
       /\ (NUM_SPINUPS (configure {| env_NUM_SPINUPS := Some 0; env_START_PORT := None;
                                     env_ADDRESS := None; env_DATA_SIZE := None |}) < 0 ->
           responsePromises st = []).
Proof.
  apply (spinups_from_the_environment echoing
           {| env_NUM_SPINUPS := Some 0; env_START_PORT := None;
              env_ADDRESS := None; env_DATA_SIZE := None |}).
  reflexivity.
Defined.

(** ** What the outcomes say about the replies *)

(** X16. In every run in client mode an operation is resolved only if
    the reply of its server equals the payload of its runner, and rejected
    only if that reply differs, and then with the message of its own
    transport: no duration comes from a wrong reply. *)
Theorem outcomes_tell_the_replies (w : World) (c : Config) :
  exists st : State,
    run w c true (turns c) = Some st
    /\ forall r, In r (responsePromises st) -> forall t,
         (forall d, outcome (operation_of t r) = Resolved d ->
            respond w t (port (operation_of t r)) (data r) = data r)
         /\ (forall e, outcome (operation_of t r) = Rejected e ->
               e = wrong_response t
               /\ respond w t (port (operation_of t r)) (data r) <> data r).
Proof.
  destruct (run_client w c) as (st & Hrun & _ & _ & _ & _ & Hhonest & _).
  exists st. split; [exact Hrun|].
  unfold honest in Hhonest. rewrite Forall_forall in Hhonest.
  intros r Hr t. specialize (Hhonest r (proj2 (list_elem_of_In _ _) Hr) t).
  split.
  - intros d Hd. now rewrite Hd in Hhonest.
  - intros e He. now rewrite He in Hhonest.
Qed.

(** The runner whose rejection a rejected promise carries. *)
Lemma first_reason_In {A} (ps : list (promise A)) (e : string) :
  first_reason ps = Some e -> In (Rejected e) ps.
Proof.
  induction ps as [|p ps IH]; [discriminate|]. simpl.
  destruct p as [|v|e0]; simpl; auto. intros [= ->]. now left.
Qed.

Lemma replied_race_culprit (t : transport) (resp : string) (now : Z) (r : Runner) :
  (forall e, race r = Rejected e -> exists t', outcome (operation_of t' r) = Rejected e) ->
  forall e, race (replied t resp now r) = Rejected e ->
    exists t', outcome (operation_of t' (replied t resp now r)) = Rejected e.
Proof.
  destruct r as [d [p1 s1 o1] [p2 s2 o2] [p3 s3 o3] rc]. intros Hold e.
  unfold replied.
  destruct t; simpl in *;
    destruct (negb (resp =? d)%string), o1, o2, o3, rc as [|[[a b] x]|e0];
    simpl in *; intros He; try discriminate;
    try (injection He as <-);
    try (destruct (Hold _ eq_refl) as [[] Ht]; simpl in Ht; try discriminate);
    first [ exists QUIC; simpl; congruence
          | exists HTTP; simpl; congruence
          | exists WS; simpl; congruence ].
Qed.

Lemma runAsClient_blamed (w : World) (c : Config) (p q r : Z) (st : State) :
  joined st = None -> blamed st -> blamed (runAsClient w c p q r st).
Proof.
  intros Hnone [Hraces _]. rewrite runAsClient_eq. split; simpl.
  - apply Forall_app. split; [assumption|]. constructor; [|constructor].
    intros e He. discriminate.
  - rewrite Hnone. discriminate.
Qed.

Lemma join_blamed (st : State) : blamed st -> blamed (join st).
Proof.
  intros [Hraces _]. split; [exact Hraces|]. simpl. intros e He.
  unfold Promise_all in He.
  destruct (first_reason (map race (responsePromises st))) as [e0|] eqn:Hr.
  - injection He as ->. apply first_reason_In in Hr.
    apply in_map_iff in Hr as (r & Hrace & Hin). eauto.
  - destruct (values_of _); discriminate.
Qed.

Lemma deliver_blamed (w : World) (reply : Reply) (st : State) :
  blamed st -> blamed (deliver w reply st).
Proof.
  intros [Hraces Hjoined].
  destruct (responsePromises st !! runner reply) as [r|] eqn:Hr;
    [|rewrite deliver_None by assumption; now split].
  rewrite (deliver_Some w reply st r Hr).
  set (r'' := replied _ _ _ r).
  assert (Hlt : (runner reply < length (responsePromises st))%nat)
    by (eapply lookup_lt_Some, Hr).
  assert (Hin'' : In r'' (<[runner reply := r'']> (responsePromises st))).
  { eapply list_elem_of_In, list_elem_of_lookup_2. now apply list_lookup_insert_eq. }
  split; cbn [responsePromises joined].
  - apply Forall_insert; [assumption|].
    apply replied_race_culprit. rewrite Forall_lookup in Hraces. eauto.
  - destruct (joined st) as [all|]; [|discriminate].
    remember (race r'') as rc eqn:Hnew. symmetry in Hnew.
    intros e He. injection He as He.
    destruct all as [|ts|e0].
    + unfold Promise_all_react in He.
      destruct (race r) eqn:Hold; try discriminate.
      destruct rc as [|s|e1]; try discriminate.
      * match type of He with context [values_of ?x] => destruct (values_of x) end;
          simpl in He; discriminate.
      * simpl in He. injection He as ->. eauto.
    + rewrite Promise_all_react_settled in He by discriminate. discriminate.
    + rewrite Promise_all_react_settled in He by discriminate. injection He as ->.
      destruct (Hjoined e eq_refl) as (r0 & Hin0 & Hrace0).
      apply list_elem_of_In, list_elem_of_lookup in Hin0 as [k Hk].
      destruct (decide (k = runner reply)) as [->|Hne].
      * assert (r0 = r) by congruence. subst r0.
        exists r''. split; [exact Hin''|].
        rewrite <- Hrace0. apply replied_race_final. rewrite Hrace0. discriminate.
      * exists r0. split; [|assumption].
        apply list_elem_of_In, (list_elem_of_lookup_2 _ k).
        rewrite list_lookup_insert_ne by (intros Heq; apply Hne; now symmetry). exact Hk.
Qed.

(** X17. When the promise of a run in client mode is rejected, nothing is
    logged and its reason can be traced: it is the wrong-response message
    of a transport, some runner is rejected with it, and an operation of
    that transport of that runner has received a reply that differs from
    the payload. *)
Theorem rejected_run_names_a_wrong_reply (w : World) (c : Config) :
  exists st : State,
    run w c true (turns c) = Some st
    /\ forall e, joined st = Some (Rejected e) ->
         logged st = None
         /\ exists (r : Runner) (t : transport),
              In r (responsePromises st)
              /\ race r = Rejected e
              /\ outcome (operation_of t r) = Rejected e
              /\ e = wrong_response t
              /\ respond w t (port (operation_of t r)) (data r) <> data r.
Proof.
  destruct (run_client w c) as (st & Hrun & _ & _ & _ & [_ Hjoin] & Hhonest & _).
  exists st. split; [exact Hrun|].
  assert (Hb : blamed st).
  { unfold run, main in Hrun.
    destruct (main_loop w c true (turns c) 8000 0 initial) as [st0|] eqn:Hloop;
      [|discriminate].
    injection Hrun as <-.
    apply deliver_all_invariant; [intros; now apply deliver_blamed|].
    apply join_blamed.
    apply (main_loop_client_invariant (fun s => joined s = None /\ blamed s) w c)
      with (fuel := turns c) (p := 8000) (sleeps := 0%nat) (st := initial).
    - intros p q r s [Hn Hb]. split; [now rewrite runAsClient_eq|].
      now apply runAsClient_blamed.
    - intros reply s [Hn Hb]. split; [now apply deliver_frame|].
      now apply deliver_blamed.
    - split; [reflexivity|]. split; [constructor|discriminate].
    - exact Hloop. }
  destruct Hb as [Hraces Hjoined]. rewrite Forall_forall in Hraces.
  unfold honest in Hhonest. rewrite Forall_forall in Hhonest.
  intros e He. split.
  - rewrite He in Hjoin. now destruct Hjoin.
  - destruct (Hjoined e He) as (r & Hin & Hrace).
    apply list_elem_of_In in Hin.
    destruct (Hraces r Hin e Hrace) as [t Ht].
    specialize (Hhonest r Hin t). rewrite Ht in Hhonest. destruct Hhonest as [-> Hwrong].
    exists r, t. split; [now apply list_elem_of_In|]. auto.
Qed.
